(** * The encoding subsystem of qsdk: RLP, ABI and JSON codecs

    A shallow embedding of [src/encoding/rlp.js], [src/encoding/abi.js],
    [src/encoding/json.js] and [src/utils/hex.js], together with the part of
    the JavaScript runtime these files call (number and string primitives,
    [Buffer] conversions, [BigInt], [parseInt]).

    Strings are sequences of UTF-16 code units, bytes are integers in
    [0, 255], both carried by [Z].  A thrown exception is a value of
    [error]; a function that may throw returns a [result]. *)

From Stdlib Require Import String Ascii ZArith List Lia Bool.
Import ListNotations.
Local Open Scope Z_scope.
#[local] Set Warnings "-register-all".

(** ** Values *)

(** A JavaScript string: its UTF-16 code units. *)
Definition jsstring := list Z.

(** A string literal of the source, as code units. *)
Definition lit (s : string) : jsstring :=
  map (fun a => Z.of_N (N_of_ascii a)) (list_ascii_of_string s).

Definition len {A : Type} (s : list A) : Z := Z.of_nat (length s).

Fixpoint streq (a b : jsstring) : bool :=
  match a, b with
  | [], [] => true
  | x :: a', y :: b' => (x =? y) && streq a' b'
  | _, _ => false
  end.

(** Numbers.  The codecs form numbers from integers and from one division
    of a string length by two, so the numbers of the model are the integers
    [NInt z] and the half-integers [NHalf k], which stands for [k + 1/2].
    Both print exactly in radix 16 (within the safe integer range).  [NaN],
    the infinities and the other fractions are not represented. *)
Inductive number : Type :=
| NInt (z : Z)
| NHalf (k : Z).

(** Primitive values. *)
Inductive prim : Type :=
| PUndefined
| PNull
| PBool (b : bool)
| PNumber (x : number)
| PBigInt (z : Z)
| PString (s : jsstring).

(** Values: primitives, arrays, and plain objects with their own enumerable
    properties in enumeration order. *)
Inductive jsvalue : Type :=
| VPrim (p : prim)
| VArray (items : list jsvalue)
| VObject (fields : list (jsstring * jsvalue)).

(** Exceptions: the three native kinds the runtime raises here, and
    [new Error(message)] as the source throws it. *)
Inductive error : Type :=
| TypeError
| RangeError
| SyntaxError
| Error (message : jsstring).

Inductive result (A : Type) : Type :=
| Ret (a : A)
| Throw (e : error).
Arguments Ret {A} a.
Arguments Throw {A} e.

Definition bind {A B : Type} (r : result A) (k : A -> result B) : result B :=
  match r with
  | Ret a => k a
  | Throw e => Throw e
  end.

Notation "x <- r ;; k" := (bind r (fun x => k))
  (at level 61, r at next level, right associativity).

(** ** The JavaScript runtime used by the codecs *)
Module JS.

(** *** Numbers *)

(** [value < c] and [value <= c] for an integer constant [c]. *)
Definition ltb (x : number) (c : Z) : bool :=
  match x with
  | NInt z => z <? c
  | NHalf k => k <? c
  end.

Definition leb (x : number) (c : Z) : bool :=
  match x with
  | NInt z => z <=? c
  | NHalf k => k <? c
  end.

(** [n / 2] for an integer [n]. *)
Definition half (n : Z) : number :=
  if Z.even n then NInt (n / 2) else NHalf (n / 2).

(** The digit character of a digit value below 16, lowercase. *)
Definition hexChar (d : Z) : Z := if d <? 10 then 48 + d else 87 + d.

Fixpoint hexDigits (fuel : nat) (n : Z) (acc : jsstring) : jsstring :=
  match fuel with
  | O => acc
  | S f =>
      if n <? 16 then hexChar n :: acc
      else hexDigits f (n / 16) (hexChar (n mod 16) :: acc)
  end.

(** Radix-16 digits of a non-negative integer, no leading zero. *)
Definition natToString16 (n : Z) : jsstring :=
  hexDigits (S (Z.to_nat (Z.log2 n))) n [].

(** [BigInt.prototype.toString(16)]. *)
Definition bigIntToString16 (z : Z) : jsstring :=
  if z <? 0 then 45 :: natToString16 (- z) else natToString16 z.

(** [Number.prototype.toString(16)]. *)
Definition toString16 (x : number) : jsstring :=
  match x with
  | NInt z => bigIntToString16 z
  | NHalf k =>
      if k <? 0 then 45 :: natToString16 (- k - 1) ++ lit ".8"
      else natToString16 k ++ lit ".8"
  end.

(** *** Strings *)

Definition clampIndex (n i : Z) : Z :=
  if i <? 0 then Z.max (n + i) 0 else Z.min i n.

(** [s.slice(from, to)]. *)
Definition slice (s : jsstring) (from to : Z) : jsstring :=
  let a := clampIndex (len s) from in
  let b := clampIndex (len s) to in
  firstn (Z.to_nat (b - a)) (skipn (Z.to_nat a) s).

(** [s.slice(from)]. *)
Definition sliceFrom (s : jsstring) (from : Z) : jsstring :=
  slice s from (len s).

(** [s.padStart(n, c)] for a one-character filler. *)
Definition padStart (s : jsstring) (n : Z) (c : Z) : jsstring :=
  repeat c (Z.to_nat (n - len s)) ++ s.

(** [s.replace(/\0/g, '')]. *)
Definition stripNul (s : jsstring) : jsstring :=
  filter (fun c => negb (c =? 0)) s.

(** [ToString(s[0])]: the first character, or the text of [undefined]. *)
Definition at0 (s : jsstring) : jsstring :=
  match s with
  | [] => lit "undefined"
  | c :: _ => [c]
  end.

(** Value of a character as a digit in a radix up to 36. *)
Definition digitVal (c : Z) : option Z :=
  if (48 <=? c) && (c <=? 57) then Some (c - 48)
  else if (97 <=? c) && (c <=? 122) then Some (c - 87)
  else if (65 <=? c) && (c <=? 90) then Some (c - 55)
  else None.

Definition digitIn (radix c : Z) : option Z :=
  match digitVal c with
  | Some d => if d <? radix then Some d else None
  | None => None
  end.

Definition isHexDigit (c : Z) : bool :=
  match digitIn 16 c with Some _ => true | None => false end.

(** White space and line terminators, as [parseInt] and [BigInt] skip. *)
Definition isWhiteSpace (c : Z) : bool :=
  ((9 <=? c) && (c <=? 13)) || (c =? 32) || (c =? 160) || (c =? 5760)
  || ((8192 <=? c) && (c <=? 8202)) || (c =? 8232) || (c =? 8233)
  || (c =? 8239) || (c =? 8287) || (c =? 12288) || (c =? 65279).

Fixpoint trimStart (s : jsstring) : jsstring :=
  match s with
  | c :: r => if isWhiteSpace c then trimStart r else s
  | [] => []
  end.

Definition trim (s : jsstring) : jsstring :=
  rev (trimStart (rev (trimStart s))).

(** The longest prefix of digits of the radix, read as a number from
    the accumulator on; [seen] tells whether a digit was read. *)
Fixpoint readDigits (radix : Z) (s : jsstring) (acc : Z) (seen : bool)
  : option Z :=
  match s with
  | [] => if seen then Some acc else None
  | c :: r =>
      match digitIn radix c with
      | Some d => readDigits radix r (acc * radix + d) true
      | None => if seen then Some acc else None
      end
  end.

(** All of [s] as digits of the radix; [None] when empty or malformed. *)
Fixpoint allDigits (radix : Z) (s : jsstring) (acc : Z) : option Z :=
  match s with
  | [] => Some acc
  | c :: r =>
      match digitIn radix c with
      | Some d => allDigits radix r (acc * radix + d)
      | None => None
      end
  end.

Definition parseDigits (radix : Z) (s : jsstring) : option Z :=
  match s with
  | [] => None
  | _ => allDigits radix s 0
  end.

(** [parseInt(s, 16)]; [None] is [NaN]. *)
Definition parseInt16 (s : jsstring) : option Z :=
  let s := trimStart s in
  let '(neg, s) :=
    match s with
    | c :: r =>
        if c =? 45 then (true, r)
        else if c =? 43 then (false, r)
        else (false, s)
    | [] => (false, s)
    end in
  let s :=
    match s with
    | a :: b :: r =>
        if (a =? 48) && ((b =? 120) || (b =? 88)) then r else s
    | _ => s
    end in
  match readDigits 16 s 0 false with
  | Some n => Some (if neg then - n else n)
  | None => None
  end.

(** Comparisons of a possibly-[NaN] number with a constant. *)
Definition nanLe (x : option Z) (c : Z) : bool :=
  match x with Some v => v <=? c | None => false end.

Definition nanGe (x : option Z) (c : Z) : bool :=
  match x with Some v => c <=? v | None => false end.

(** *** Buffer *)

(** [Buffer.from(s, 'hex')]: pairs of hex digits, stopping at the first
    pair that is not one and dropping a trailing single character. *)
Fixpoint bufferFromHex (s : jsstring) : list Z :=
  match s with
  | a :: b :: r =>
      match digitIn 16 a, digitIn 16 b with
      | Some x, Some y => (16 * x + y) :: bufferFromHex r
      | _, _ => []
      end
  | _ => []
  end.

(** [buffer.toString('hex')]. *)
Fixpoint bufferToHex (bs : list Z) : jsstring :=
  match bs with
  | [] => []
  | b :: r => hexChar (b / 16) :: hexChar (b mod 16) :: bufferToHex r
  end.

Definition isHighSurrogate (c : Z) : bool := (55296 <=? c) && (c <=? 56319).
Definition isLowSurrogate (c : Z) : bool := (56320 <=? c) && (c <=? 57343).

Definition utf8OfCodePoint (cp : Z) : list Z :=
  if cp <? 128 then [cp]
  else if cp <? 2048 then [192 + cp / 64; 128 + cp mod 64]
  else if cp <? 65536 then
    [224 + cp / 4096; 128 + (cp / 64) mod 64; 128 + cp mod 64]
  else
    [240 + cp / 262144; 128 + (cp / 4096) mod 64;
     128 + (cp / 64) mod 64; 128 + cp mod 64].

(** The encoding of U+FFFD, written for an unpaired surrogate. *)
Definition replacementBytes : list Z := [239; 191; 189].

(** [Buffer.from(s, 'utf8')]. *)
Fixpoint bufferFromUtf8 (s : jsstring) : list Z :=
  match s with
  | [] => []
  | c :: r =>
      if isHighSurrogate c then
        match r with
        | d :: r' =>
            if isLowSurrogate d then
              utf8OfCodePoint (65536 + (c - 55296) * 1024 + (d - 56320))
                ++ bufferFromUtf8 r'
            else replacementBytes ++ bufferFromUtf8 r
        | [] => replacementBytes
        end
      else if isLowSurrogate c then replacementBytes ++ bufferFromUtf8 r
      else utf8OfCodePoint c ++ bufferFromUtf8 r
  end.

(** [s.isWellFormed()]: code units in range, every surrogate paired. *)
Fixpoint isWellFormed (s : jsstring) : bool :=
  match s with
  | [] => true
  | c :: r =>
      if isHighSurrogate c then
        match r with
        | d :: r' => isLowSurrogate d && isWellFormed r'
        | [] => false
        end
      else
        negb (isLowSurrogate c) && (0 <=? c) && (c <? 65536)
        && isWellFormed r
  end.

Definition inRange (b lo hi : Z) : bool := (lo <=? b) && (b <=? hi).

Definition unitsOfCodePoint (cp : Z) : jsstring :=
  if cp <? 65536 then [cp]
  else [55296 + (cp - 65536) / 1024; 56320 + (cp - 65536) mod 1024].

(** One step of [buffer.toString('utf8')]: the sequence that starts with
    the byte [b0] is decoded and [k] decodes the rest.  An ill-formed
    sequence gives one U+FFFD for its longest well-formed prefix, and
    decoding resumes at the offending byte. *)
Definition utf8Step (k : list Z -> jsstring) (b0 : Z) (r0 : list Z)
  : jsstring :=
  if b0 <? 128 then b0 :: k r0
  else if inRange b0 194 223 then
    match r0 with
    | [] => [65533]
    | b1 :: r1 =>
        if inRange b1 128 191
        then ((b0 - 192) * 64 + (b1 - 128)) :: k r1
        else 65533 :: k r0
    end
  else if inRange b0 224 239 then
    match r0 with
    | [] => [65533]
    | b1 :: r1 =>
        if inRange b1 (if b0 =? 224 then 160 else 128)
                      (if b0 =? 237 then 159 else 191)
        then
          match r1 with
          | [] => [65533]
          | b2 :: r2 =>
              if inRange b2 128 191
              then ((b0 - 224) * 4096 + (b1 - 128) * 64 + (b2 - 128))
                     :: k r2
              else 65533 :: k r1
          end
        else 65533 :: k r0
    end
  else if inRange b0 240 244 then
    match r0 with
    | [] => [65533]
    | b1 :: r1 =>
        if inRange b1 (if b0 =? 240 then 144 else 128)
                      (if b0 =? 244 then 143 else 191)
        then
          match r1 with
          | [] => [65533]
          | b2 :: r2 =>
              if inRange b2 128 191 then
                match r2 with
                | [] => [65533]
                | b3 :: r3 =>
                    if inRange b3 128 191
                    then unitsOfCodePoint
                           ((b0 - 240) * 262144 + (b1 - 128) * 4096
                            + (b2 - 128) * 64 + (b3 - 128))
                           ++ k r3
                    else 65533 :: k r2
                end
              else 65533 :: k r1
          end
        else 65533 :: k r0
    end
  else 65533 :: k r0.

(** [buffer.toString('utf8')]. *)
Fixpoint bufferToUtf8 (bs : list Z) : jsstring :=
  match bs with
  | [] => []
  | b0 :: r0 => utf8Step bufferToUtf8 b0 r0
  end.

(** *** BigInt *)

(** [StringToBigInt]: surrounding white space is dropped; the empty text
    is zero; a radix prefix takes no sign; decimal digits may carry one. *)
Definition stringToBigInt (s : jsstring) : option Z :=
  match trim s with
  | [] => Some 0
  | 48 :: 120 :: r | 48 :: 88 :: r => parseDigits 16 r
  | 48 :: 111 :: r | 48 :: 79 :: r => parseDigits 8 r
  | 48 :: 98 :: r | 48 :: 66 :: r => parseDigits 2 r
  | 45 :: r => option_map Z.opp (parseDigits 10 r)
  | 43 :: r => parseDigits 10 r
  | t => parseDigits 10 t
  end.

(** [BigInt(value)] on a primitive. *)
Definition BigInt (value : prim) : result Z :=
  match value with
  | PUndefined | PNull => Throw TypeError
  | PBool b => Ret (if b then 1 else 0)
  | PNumber (NInt z) => Ret z
  | PNumber (NHalf _) => Throw RangeError
  | PBigInt z => Ret z
  | PString s =>
      match stringToBigInt s with
      | Some z => Ret z
      | None => Throw SyntaxError
      end
  end.

(** Truthiness of a primitive, as a conditional tests it. *)
Definition truthy (value : prim) : bool :=
  match value with
  | PUndefined | PNull => false
  | PBool b => b
  | PNumber (NInt z) => negb (z =? 0)
  | PNumber (NHalf _) => true
  | PBigInt z => negb (z =? 0)
  | PString s => negb (len s =? 0)
  end.

(** [typeof value]. *)
Definition typeofPrim (p : prim) : jsstring :=
  match p with
  | PUndefined => lit "undefined"
  | PNull => lit "object"
  | PBool _ => lit "boolean"
  | PNumber _ => lit "number"
  | PBigInt _ => lit "bigint"
  | PString _ => lit "string"
  end.

Definition typeof (v : jsvalue) : jsstring :=
  match v with
  | VPrim p => typeofPrim p
  | VArray _ | VObject _ => lit "object"
  end.

(** [Array.isArray(value)]. *)
Definition isArray (v : jsvalue) : bool :=
  match v with VArray _ => true | _ => false end.

End JS.

(** ** src/utils/hex.js *)
Module HexUtils.

(** The pattern [/^0x[0-9a-fA-F]+$/] on a string. *)
Definition test (s : jsstring) : bool :=
  match s with
  | a :: b :: d :: r =>
      (a =? 48) && (b =? 120) && forallb JS.isHexDigit (d :: r)
  | _ => false
  end.

(** [isHex(value)]: the pattern tested on the text of the value.  The
    text of a primitive other than a string ([undefined], [null], [true],
    [false], a decimal numeral) never matches; the text of an array is
    that of its element when it has one, and is empty or holds a comma
    otherwise; the text of a plain object is [[object Object]]. *)
Fixpoint isHex (value : jsvalue) : bool :=
  match value with
  | VPrim (PString s) => test s
  | VPrim _ => false
  | VArray [item] => isHex item
  | VArray _ => false
  | VObject _ => false
  end.

End HexUtils.

(** ** src/encoding/rlp.js *)
Module RLP.

Definition intToHex (value : number) : jsstring :=
  let hexValue := JS.toString16 value in
  hexValue.

Definition encodeNumber (value : number) : result jsstring :=
  if JS.ltb value 0 then Throw (Error (lit "Cannot encode negative numbers"))
  else
    let hexValue := JS.toString16 value in
    if JS.leb value 127 then Ret (lit "0x" ++ hexValue)
    else Ret (lit "0x" ++ intToHex value).

Definition encodeString (value : jsstring) : result jsstring :=
  let buffer := JS.bufferFromUtf8 value in
  if (len buffer =? 1) && (nth 0 buffer 0 <=? 127)
  then Ret (lit "0x" ++ JS.bufferToHex buffer)
  else Ret (lit "0x" ++ intToHex (NInt (len buffer)) ++ JS.bufferToHex buffer).

(** The body of [encodeList] once every item is encoded and stripped of
    its prefix. *)
Definition joinList (encodedList : list jsstring) : jsstring :=
  let listLength := JS.half (len (concat encodedList)) in
  let lengthPrefix := intToHex listLength in
  lit "0x" ++ lengthPrefix ++ concat encodedList.

Definition unsupportedType : error :=
  Error (lit "Unsupported type for RLP encoding").

(** [encode], with [encodeList] mapping it over the items in order. *)
Fixpoint encode (value : jsvalue) : result jsstring :=
  match value with
  | VPrim (PNumber x) => encodeNumber x
  | VPrim (PString s) => encodeString s
  | VArray items =>
      let fix encodeItems (l : list jsvalue)
        : result (list jsstring) :=
        match l with
        | [] => Ret []
        | item :: rest =>
            h <- encode item ;;
            hs <- encodeItems rest ;;
            Ret (JS.sliceFrom h 2 :: hs)
        end in
      encodedList <- encodeItems items ;;
      Ret (joinList encodedList)
  | _ => Throw unsupportedType
  end.

(** [value.map(item => this.encode(item).slice(2))]. *)
Fixpoint encodeItems (l : list jsvalue) : result (list jsstring) :=
  match l with
  | [] => Ret []
  | item :: rest =>
      h <- encode item ;;
      hs <- encodeItems rest ;;
      Ret (JS.sliceFrom h 2 :: hs)
  end.

Definition encodeList (value : list jsvalue) : result jsstring :=
  encodedList <- encodeItems value ;;
  Ret (joinList encodedList).

Definition decodeNumber (hexString : jsstring) : option Z :=
  JS.parseInt16 hexString.

Definition decodeString (hexString : jsstring) : jsstring :=
  JS.bufferToUtf8 (JS.bufferFromHex hexString).

(** The loop of [decodeList].  [index] is [None] once it is [NaN]; the
    loop may run for ever on text that is not hex, so it takes fuel and
    answers [None] when the fuel is spent. *)
Fixpoint decodeLoop (fuel : nat) (hexString : jsstring) (index : option Z)
                    (items : list jsstring) : option (list jsstring) :=
  match fuel with
  | O => None
  | S f =>
      match index with
      | None => Some items
      | Some i =>
          if i <? len hexString then
            match JS.parseInt16 (JS.slice hexString i (i + 2)) with
            | Some itemLength =>
                decodeLoop f hexString (Some (i + 2 + itemLength))
                  (items ++ [JS.slice hexString (i + 2) (i + 2 + itemLength)])
            | None =>
                decodeLoop f hexString None
                  (items ++ [JS.slice hexString (i + 2) 0])
            end
          else Some items
      end
  end.

Definition decodeList (fuel : nat) (hexString : jsstring)
  : option (list jsstring) :=
  let index := 0 in
  let length := JS.parseInt16 (JS.slice hexString index (index + 2)) in
  let index := index + 2 in
  decodeLoop fuel hexString (Some index) [].

Definition tooShort : error :=
  Error (lit "Hex string must be at least 2 characters long").

Definition unsupportedFormat : error :=
  Error (lit "Unsupported RLP format").

Definition decode (fuel : nat) (hexString : jsstring)
  : option (result jsvalue) :=
  if len hexString <? 2 then Some (Throw tooShort)
  else
    let hexString := JS.sliceFrom hexString 2 in
    let firstByte := JS.parseInt16 (JS.at0 hexString) in
    if JS.nanLe firstByte 127
    then Some (Ret (VPrim (PString (decodeString hexString))))
    else if JS.nanGe firstByte 192
    then option_map
           (fun l => Ret (VArray (map (fun s => VPrim (PString s)) l)))
           (decodeList fuel hexString)
    else Some (Throw unsupportedFormat).

End RLP.

(** ** src/encoding/abi.js

    The value to encode is a primitive.  An array or an object passed as
    the value itself, which [Buffer.from] and [BigInt] would coerce, is
    not represented; from [JSONUtils] such a value arrives only under a
    tag the switch rejects. *)
Module ABIUtils.

Definition unsupportedType (type : jsstring) : error :=
  Error (lit "Unsupported ABI type: " ++ type).

Definition notPositive : error :=
  Error (lit "Value must be a positive integer").

Definition invalidAddress : error :=
  Error (lit "Invalid Quantova address").

Definition lengthError : error :=
  Error (lit "Value must be 32 bytes (64 hex characters)").

Definition formatError : error :=
  Error (lit "Value must be a valid hex string").

Definition notHexString : error :=
  Error (lit "Value must be a hex string").

Definition wordTrue : jsstring :=
  lit "0000000000000000000000000000000000000000000000000000000000000001".

Definition wordFalse : jsstring :=
  lit "0000000000000000000000000000000000000000000000000000000000000000".

Definition encodeUInt256 (value : prim) : result jsstring :=
  bigIntValue <- JS.BigInt value ;;
  if bigIntValue <? 0 then Throw notPositive
  else Ret (JS.padStart (JS.bigIntToString16 bigIntValue) 64 48).

(** [Buffer.from] rejects a primitive that is not a string. *)
Definition encodeString (value : prim) : result jsstring :=
  match value with
  | PString s =>
      let hexValue := JS.bufferToHex (JS.bufferFromUtf8 s) in
      Ret (JS.padStart hexValue 64 48)
  | _ => Throw TypeError
  end.

Definition encodeBool (value : prim) : result jsstring :=
  Ret (if JS.truthy value then wordTrue else wordFalse).

(** [isHex] holds of no primitive but a string, so the length is read
    from a string only. *)
Definition encodeAddress (address : prim) : result jsstring :=
  match address with
  | PString s =>
      if negb (HexUtils.isHex (VPrim address)) || negb (len s =? 42)
      then Throw invalidAddress
      else Ret (JS.padStart (JS.sliceFrom s 2) 64 48)
  | _ => Throw invalidAddress
  end.

(** Reading [length] of [undefined] or [null] is a [TypeError]; of any
    other primitive that is not a string it is [undefined]. *)
Definition encodeBytes32 (value : prim) : result jsstring :=
  match value with
  | PUndefined | PNull => Throw TypeError
  | PString s =>
      if negb (len s =? 64) then Throw lengthError
      else if negb (HexUtils.isHex (VPrim value)) then Throw formatError
      else Ret s
  | _ => Throw lengthError
  end.

Definition encodeBytes (value : prim) : result jsstring :=
  match value with
  | PString s =>
      if negb (HexUtils.isHex (VPrim value)) then Throw notHexString
      else Ret (JS.padStart s 64 48)
  | _ => Throw notHexString
  end.

Definition encodeParameter (type : jsstring) (value : prim)
  : result jsstring :=
  if streq type (lit "uint256") then encodeUInt256 value
  else if streq type (lit "string") then encodeString value
  else if streq type (lit "bool") then encodeBool value
  else if streq type (lit "address") then encodeAddress value
  else if streq type (lit "bytes32") then encodeBytes32 value
  else if streq type (lit "bytes") then encodeBytes value
  else Throw (unsupportedType type).

Definition decodeUInt256 (encodedValue : jsstring) : result prim :=
  match JS.stringToBigInt (lit "0x" ++ encodedValue) with
  | Some z => Ret (PBigInt z)
  | None => Throw SyntaxError
  end.

Definition decodeString (encodedValue : jsstring) : result prim :=
  let buffer := JS.bufferFromHex encodedValue in
  Ret (PString (JS.stripNul (JS.bufferToUtf8 buffer))).

Definition decodeBool (encodedValue : jsstring) : result prim :=
  Ret (PBool (streq encodedValue wordTrue)).

Definition decodeAddress (encodedValue : jsstring) : result prim :=
  Ret (PString (lit "0x" ++ JS.sliceFrom encodedValue 24)).

Definition decodeBytes32 (encodedValue : jsstring) : result prim :=
  Ret (PString encodedValue).

Definition decodeBytes (encodedValue : jsstring) : result prim :=
  Ret (PString encodedValue).

Definition decodeParameter (type : jsstring) (encodedValue : jsstring)
  : result prim :=
  if streq type (lit "uint256") then decodeUInt256 encodedValue
  else if streq type (lit "string") then decodeString encodedValue
  else if streq type (lit "bool") then decodeBool encodedValue
  else if streq type (lit "address") then decodeAddress encodedValue
  else if streq type (lit "bytes32") then decodeBytes32 encodedValue
  else if streq type (lit "bytes") then decodeBytes encodedValue
  else Throw (unsupportedType type).

End ABIUtils.

(** ** src/encoding/json.js *)
Module JSONUtils.

Definition unsupportedType : error := Error (lit "Unsupported type").

Definition notObjectOrArray : error :=
  Error (lit "Value must be an object or an array").

Definition getType (value : jsvalue) : result jsstring :=
  if streq (JS.typeof value) (lit "number") then Ret (lit "uint256")
  else if streq (JS.typeof value) (lit "string") then Ret (lit "string")
  else if streq (JS.typeof value) (lit "boolean") then Ret (lit "bool")
  else if JS.isArray value then Ret (lit "bytes[]")
  else if HexUtils.isHex value then Ret (lit "bytes32")
  else Throw unsupportedType.

(** [ABIUtils.encodeParameter(this.getType(item), item)].  An item that
    is no primitive reaches [encodeParameter] with the tag of an array
    only, which is no case of its switch. *)
Definition encodeItem (item : jsvalue) : result jsstring :=
  type <- getType item ;;
  match item with
  | VPrim p => ABIUtils.encodeParameter type p
  | _ => Throw (ABIUtils.unsupportedType type)
  end.

Fixpoint encodeArray (value : list jsvalue) (encoded : jsstring)
  : result jsstring :=
  match value with
  | [] => Ret encoded
  | item :: rest =>
      word <- encodeItem item ;;
      encodeArray rest (encoded ++ word)
  end.

(** The values of the own enumerable properties a [for ... in] loop
    visits: the fields of an object, the items of an array, the
    characters of a string, none for any other primitive. *)
Definition ownValues (value : jsvalue) : list jsvalue :=
  match value with
  | VObject fields => map snd fields
  | VArray items => items
  | VPrim (PString s) => map (fun c => VPrim (PString [c])) s
  | VPrim _ => []
  end.

Definition encodeObject (value : jsvalue) : result jsstring :=
  encodeArray (ownValues value) [].

Definition encodeJSON (value : jsvalue) : result jsstring :=
  match value with
  | VArray items => encodeArray items []
  | _ =>
      if streq (JS.typeof value) (lit "object") then encodeObject value
      else Throw notObjectOrArray
  end.

End JSONUtils.

(** ** More of the JavaScript runtime *)
Module Text.

(** [s.substr(start, length)]. *)
Definition substr (s : jsstring) (start length : Z) : jsstring :=
  firstn (Z.to_nat length)
         (skipn (Z.to_nat (JS.clampIndex (len s) start)) s).

(** [s.startsWith(p)]. *)
Fixpoint startsWith (s p : jsstring) : bool :=
  match p, s with
  | [], _ => true
  | x :: p', y :: s' => (x =? y) && startsWith s' p'
  | _ :: _, [] => false
  end.

(** [String.fromCharCode(n)]: the code unit [n] modulo [2 ^ 16]; [NaN]
    gives the character U+0000. *)
Definition fromCharCode (n : option Z) : jsstring :=
  match n with
  | Some v => [v mod 65536]
  | None => [0]
  end.

(** [s.toLowerCase()] on the characters up to U+007F, which is all its
    callers pass: they check the text to be [0x] and hex digits first. *)
Definition toLowerCase (s : jsstring) : jsstring :=
  map (fun c => if (65 <=? c) && (c <=? 90) then c + 32 else c) s.

(** [n < x] for an integer [n] and a number [x]. *)
Definition intLt (n : Z) (x : number) : bool :=
  match x with
  | NInt z => n <? z
  | NHalf k => n <=? k
  end.

Fixpoint decDigits (fuel : nat) (n : Z) (acc : jsstring) : jsstring :=
  match fuel with
  | O => acc
  | S f =>
      if n <? 10 then (48 + n) :: acc
      else decDigits f (n / 10) ((48 + n mod 10) :: acc)
  end.

(** Decimal digits of a non-negative integer, no leading zero. *)
Definition natToString10 (n : Z) : jsstring :=
  decDigits (S (Z.to_nat (Z.log2 n))) n [].

(** [BigInt.prototype.toString()]. *)
Definition bigIntToString (z : Z) : jsstring :=
  if z <? 0 then 45 :: natToString10 (- z) else natToString10 z.

End Text.

(** ** src/utils/hex.js, the conversions *)
Module Hex.

Definition invalidHex : error := Error (lit "Invalid hex string").


Definition notConvertible : error :=
  Error (lit "Invalid input: value cannot be converted to BigInt").

(** The loop of [stringToHex]: the last two characters of [0] followed by
    the radix-16 text of each code unit. *)
Fixpoint stringToHexLoop (str : jsstring) (hex : jsstring) : jsstring :=
  match str with
  | [] => hex
  | c :: rest =>
      stringToHexLoop rest
        (hex ++ JS.sliceFrom (lit "0" ++ JS.toString16 (NInt c)) (-2))
  end.

Definition stringToHex (str : jsstring) : jsstring :=
  lit "0x" ++ stringToHexLoop str [].

(** The loop of [hexToString] over the text from index 2 on: each
    [substr(i, 2)] is the next two characters, or the last one. *)
Fixpoint hexToStringLoop (rest : jsstring) (str : jsstring) : jsstring :=
  match rest with
  | a :: b :: r =>
      hexToStringLoop r (str ++ Text.fromCharCode (JS.parseInt16 [a; b]))
  | [a] => str ++ Text.fromCharCode (JS.parseInt16 [a])
  | [] => str
  end.

Definition hexToString (hex : jsstring) : result jsstring :=
  if negb (HexUtils.test hex) then Throw invalidHex
  else Ret (hexToStringLoop (skipn 2 hex) []).


Definition toBigInt (value : prim) : result Z :=
  match value with
  | PBigInt z => Ret z
  | PString _ | PNumber _ => JS.BigInt value
  | _ => Throw notConvertible
  end.

Definition bigIntToHex (value : prim) : result jsstring :=
  bigIntValue <- toBigInt value ;;
  Ret (lit "0x" ++ JS.bigIntToString16 bigIntValue).

Definition hexToBigInt (hex : jsstring) : result Z :=
  if negb (HexUtils.test hex) then Throw invalidHex
  else JS.BigInt (PString hex).

(** The loop of [padHex].  It adds one character a turn while the text is
    shorter than [length], so it ends within [length] turns. *)
Fixpoint padLoop (fuel : nat) (paddedHex : jsstring) (length : number)
  : jsstring :=
  match fuel with
  | O => paddedHex
  | S f =>
      if Text.intLt (len paddedHex) length
      then padLoop f (48 :: paddedHex) length
      else paddedHex
  end.

Definition padTurns (length : number) : nat :=
  match length with
  | NInt z => Z.to_nat z
  | NHalf k => Z.to_nat (k + 1)
  end.

Definition padHex (hex : jsstring) (length : number) : result jsstring :=
  if negb (HexUtils.test hex) then Throw invalidHex
  else
    let paddedHex := JS.sliceFrom hex 2 in
    Ret (lit "0x" ++ padLoop (padTurns length) paddedHex length).

Definition removePrefix (hex : jsstring) : result jsstring :=
  if negb (HexUtils.test hex) then Throw invalidHex
  else Ret (JS.sliceFrom hex 2).

End Hex.

(** ** src/encoding/string.js *)
Module StringUtils.

Definition notAString : error := Error (lit "Input must be a string").

Definition invalidHex : error := Error (lit "Invalid hex string").

Definition encode (value : prim) : result jsstring :=
  match value with
  | PString s => Ret (lit "0x" ++ JS.bufferToHex (JS.bufferFromUtf8 s))
  | _ => Throw notAString
  end.

(** The pattern [/^[0-9a-fA-F]+$/]. *)
Definition isValidHex (hex : jsstring) : bool :=
  match hex with
  | [] => false
  | _ => forallb JS.isHexDigit hex
  end.

Definition decode (hexValue : jsstring) : result jsstring :=
  let hexValue :=
    if Text.startsWith hexValue (lit "0x") then JS.sliceFrom hexValue 2
    else hexValue in
  if negb (isValidHex hexValue) then Throw invalidHex
  else
    let buffer := JS.bufferFromHex hexValue in
    Ret (JS.bufferToUtf8 buffer).

Definition padString (value : jsstring) : jsstring :=
  if negb (len value mod 2 =? 0) then lit "0" ++ value else value.

Definition stringToBytes (value : jsstring) : list Z :=
  JS.bufferFromUtf8 value.

End StringUtils.

(** ** src/utils/validation.js, the patterns on hex text *)
Module ValidationUtils.

(** [0x] followed by exactly [n] hex digits. *)
Definition prefixedDigits (n : Z) (s : jsstring) : bool :=
  match s with
  | a :: b :: r =>
      (a =? 48) && (b =? 120) && (len r =? n) && forallb JS.isHexDigit r
  | _ => false
  end.

(** Exactly [n] hex digits. *)
Definition digits (n : Z) (s : jsstring) : bool :=
  (len s =? n) && forallb JS.isHexDigit s.

Definition isAddress (address : jsstring) : bool := prefixedDigits 40 address.

Definition isPrivateKey (privateKey : jsstring) : bool :=
  prefixedDigits 64 privateKey || digits 64 privateKey.

Definition isTxHash (txHash : jsstring) : bool := prefixedDigits 64 txHash.

Definition isHex (hex : jsstring) : bool := HexUtils.test hex.

Definition isValidHexNumber (hex : jsstring) : bool :=
  match hex with
  | [] => false
  | _ => forallb JS.isHexDigit hex
  end.

Definition isGasPrice (gasPrice : jsstring) : bool :=
  match gasPrice with
  | [] => false
  | _ => forallb (fun c => (48 <=? c) && (c <=? 57)) gasPrice
  end.

End ValidationUtils.

(** ** src/utils/address.js, the functions that do not hash *)
Module AddressUtils.

Definition invalidAddress : error := Error (lit "Invalid Quantova address").

Definition isAddress (value : jsstring) : bool :=
  ValidationUtils.prefixedDigits 40 value.

Definition formatAddress (address : jsstring) : result jsstring :=
  if isAddress address then Ret (Text.toLowerCase address)
  else Throw invalidAddress.

Definition isChecksumAddress (address : jsstring) : bool :=
  ValidationUtils.prefixedDigits 40 address
  && negb (streq address (Text.toLowerCase address)).

End AddressUtils.

(** ** src/utils/bigInt.js *)
Module BigIntUtils.

Definition notConvertible : error :=
  Error (lit "Invalid input: value cannot be converted to BigInt").

Definition invalidHex : error := Error (lit "Invalid hex string").

Definition divisionByZero : error := Error (lit "Division by zero").

Definition toBigInt (value : prim) : result Z :=
  match value with
  | PBigInt z => Ret z
  | PNumber _ | PString _ => JS.BigInt value
  | _ => Throw notConvertible
  end.

Definition isBigInt (value : prim) : bool :=
  match value with PBigInt _ => true | _ => false end.

Definition toHex (value : prim) : result jsstring :=
  bigIntValue <- toBigInt value ;;
  Ret (lit "0x" ++ JS.bigIntToString16 bigIntValue).

Definition fromHex (hex : jsstring) : result Z :=
  if negb (HexUtils.test hex) then Throw invalidHex
  else JS.BigInt (PString hex).

Definition add (a b : prim) : result Z :=
  x <- toBigInt a ;; y <- toBigInt b ;; Ret (x + y).

Definition subtract (a b : prim) : result Z :=
  x <- toBigInt a ;; y <- toBigInt b ;; Ret (x - y).

Definition multiply (a b : prim) : result Z :=
  x <- toBigInt a ;; y <- toBigInt b ;; Ret (x * y).

(** Division of big integers rounds towards zero. *)
Definition divide (a b : prim) : result Z :=
  bigA <- toBigInt a ;;
  bigB <- toBigInt b ;;
  if bigB =? 0 then Throw divisionByZero
  else Ret (Z.quot bigA bigB).

(** The remainder takes the sign of the dividend; by zero the runtime
    raises a [RangeError]. *)
Definition mod_ (a b : prim) : result Z :=
  x <- toBigInt a ;;
  y <- toBigInt b ;;
  if y =? 0 then Throw RangeError else Ret (Z.rem x y).

Definition min (a b : prim) : result Z :=
  x <- toBigInt a ;;
  y <- toBigInt b ;;
  if x <? y then toBigInt a else toBigInt b.

Definition max (a b : prim) : result Z :=
  x <- toBigInt a ;;
  y <- toBigInt b ;;
  if y <? x then toBigInt a else toBigInt b.

End BigIntUtils.

(** ** src/utils/format.js, the conversion of wei *)
Module FormatUtils.

(** [BigInt(10 ** 18)]: the power is an exact number. *)
Definition weiPerEther : Z := 10 ^ 18.

Definition weiToEther (wei : prim) : result jsstring :=
  weiValue <- BigIntUtils.toBigInt wei ;;
  let etherValue := Z.quot weiValue weiPerEther in
  Ret (Text.bigIntToString etherValue).

End FormatUtils.

(** ** src/encoding/json.js, decoding *)

(** A type descriptor: an array of tags, an object of tags, or a
    primitive.  The tags are strings. *)
Inductive descriptor : Type :=
| DArray (tags : list jsstring)
| DObject (fields : list (jsstring * jsstring))
| DPrim (p : prim).

Module JSONDecode.

Definition unsupportedLength (type : jsstring) : error :=
  Error (lit "Unsupported type length: " ++ type).

Definition notObjectOrArray : error :=
  Error (lit "Type must be an object or an array").

Definition getItemLength (type : jsstring) : result Z :=
  if streq type (lit "uint256") || streq type (lit "address")
     || streq type (lit "bool") || streq type (lit "bytes32")
  then Ret 64
  else if streq type (lit "string") || streq type (lit "bytes")
  then Ret 64
  else Throw (unsupportedLength type).

Fixpoint decodeArrayLoop (encodedValue : jsstring) (type : list jsstring)
                         (offset : Z) (decoded : list prim)
  : result (list prim) :=
  match type with
  | [] => Ret decoded
  | t :: rest =>
      itemLength <- getItemLength t ;;
      item <- ABIUtils.decodeParameter t
                (JS.slice encodedValue offset (offset + itemLength)) ;;
      decodeArrayLoop encodedValue rest (offset + itemLength)
        (decoded ++ [item])
  end.

Definition decodeArray (encodedValue : jsstring) (type : list jsstring)
  : result (list prim) :=
  decodeArrayLoop encodedValue type 0 [].

Fixpoint decodeObjectLoop (encodedValue : jsstring)
                          (type : list (jsstring * jsstring))
                          (offset : Z) (decoded : list (jsstring * prim))
  : result (list (jsstring * prim)) :=
  match type with
  | [] => Ret decoded
  | (key, t) :: rest =>
      itemLength <- getItemLength t ;;
      item <- ABIUtils.decodeParameter t
                (JS.slice encodedValue offset (offset + itemLength)) ;;
      decodeObjectLoop encodedValue rest (offset + itemLength)
        (decoded ++ [(key, item)])
  end.

Definition decodeObject (encodedValue : jsstring)
                        (type : list (jsstring * jsstring))
  : result (list (jsstring * prim)) :=
  decodeObjectLoop encodedValue type 0 [].

Definition asArray (items : list prim) : jsvalue :=
  VArray (map VPrim items).

Definition asObject (fields : list (jsstring * prim)) : jsvalue :=
  VObject (map (fun kv => (fst kv, VPrim (snd kv))) fields).

(** [decodeJSON].  A primitive descriptor of type [object] is [null],
    whose properties the loop of [decodeObject] does not visit. *)
Definition decodeJSON (encodedValue : jsstring) (type : descriptor)
  : result jsvalue :=
  match type with
  | DArray tags =>
      decoded <- decodeArray encodedValue tags ;; Ret (asArray decoded)
  | DObject fields =>
      decoded <- decodeObject encodedValue fields ;; Ret (asObject decoded)
  | DPrim p =>
      if streq (JS.typeofPrim p) (lit "object") then Ret (asObject [])
      else Throw notObjectOrArray
  end.

End JSONDecode.

(** ** Auxiliary definitions of the statements *)

(** The digits of [n], most significant first, without accumulator. *)
Fixpoint hexOf (fuel : nat) (n : Z) : jsstring :=
  match fuel with
  | O => []
  | S f =>
      if n <? 16 then [JS.hexChar n]
      else hexOf f (n / 16) ++ [JS.hexChar (n mod 16)]
  end.

(** The minimal radix-16 digits of a number below 256: one digit below 16,
    two from 16 on. *)
Definition minimalHex (n : Z) : jsstring :=
  if n <? 16 then [JS.hexChar n]
  else [JS.hexChar (n / 16); JS.hexChar (n mod 16)].

(** The character [.] and the character [x]. *)
Definition dot : Z := 46.
Definition letterX : Z := 120.

(** [n] copies of the character [0]. *)
Definition zeros (n : nat) : jsstring := repeat 48 n.

Definition isByte (b : Z) : Prop := 0 <= b < 256.

Definition notWhiteSpace (c : Z) : Prop := JS.isWhiteSpace c = false.

(** The values [decodeParameter] gives back as they were: a big integer
    as [uint256], a boolean as [bool], a well-formed string without the
    character U+0000 as [string], a string as [address] or [bytes32], and
    a string of 64 characters or more as [bytes]. *)
Definition roundTrips (type : jsstring) (value : prim) : bool :=
  match value with
  | PBigInt _ => streq type (lit "uint256")
  | PBool _ => streq type (lit "bool")
  | PString s =>
      (streq type (lit "string") && JS.isWellFormed s
       && negb (existsb (Z.eqb 0) s))
      || streq type (lit "address")
      || streq type (lit "bytes32")
      || (streq type (lit "bytes") && (64 <=? len s))
  | _ => false
  end.

(** A code unit of a string, and a character up to U+00FF. *)
Definition isUnit (c : Z) : Prop := 0 <= c < 65536.
Definition isLatin1 (c : Z) : Prop := 0 <= c < 256.

(** The low byte of a code unit. *)
Definition lowByte (c : Z) : Z := c mod 256.

(** The least integer that is not below a number. *)
Definition ceiling (x : number) : Z :=
  match x with
  | NInt z => z
  | NHalf k => k + 1
  end.

(** The decimal digits of [n], most significant first, without
    accumulator. *)
Fixpoint decOf (fuel : nat) (n : Z) : jsstring :=
  match fuel with
  | O => []
  | S f =>
      if n <? 10 then [48 + n]
      else decOf f (n / 10) ++ [48 + n mod 10]
  end.

(** A primitive whose JSON encoding is one word that decodes: a number
    that is an integer from 0 to below [2 ^ 256], a boolean, or a
    well-formed string of at most 32 bytes without the character
    U+0000. *)
Definition wordSized (p : prim) : bool :=
  match p with
  | PNumber (NInt n) => (0 <=? n) && (n <? 2 ^ 256)
  | PBool _ => true
  | PString s =>
      JS.isWellFormed s && negb (existsb (Z.eqb 0) s)
      && (len (JS.bufferFromUtf8 s) <=? 32)
  | _ => false
  end.

(** The tag [getType] gives a number, a string or a boolean. *)
Definition tagOf (p : prim) : jsstring :=
  match p with
  | PNumber _ => lit "uint256"
  | PString _ => lit "string"
  | PBool _ => lit "bool"
  | _ => []
  end.

(** What a primitive decodes to: a number comes back a big integer. *)
Definition decodedForm (p : prim) : prim :=
  match p with
  | PNumber (NInt n) => PBigInt n
  | _ => p
  end.

(** The word of a primitive in a JSON value. *)
Definition wordOf (p : prim) : jsstring :=
  match JSONUtils.encodeItem (VPrim p) with
  | Ret w => w
  | Throw _ => []
  end.

(** Words decoded one by one, each under its tag. *)
Fixpoint decodeWords (tags words : list jsstring) : result (list prim) :=
  match tags, words with
  | t :: ts, w :: ws =>
      v <- ABIUtils.decodeParameter t w ;;
      vs <- decodeWords ts ws ;;
      Ret (v :: vs)
  | _, _ => Ret []
  end.

(** The tags that decode the empty text, and what they decode it to. *)
Definition blankTag (t : jsstring) : bool :=
  streq t (lit "bool") || streq t (lit "string") || streq t (lit "address")
  || streq t (lit "bytes32") || streq t (lit "bytes").

Definition blankValue (t : jsstring) : prim :=
  if streq t (lit "bool") then PBool false
  else if streq t (lit "address") then PString (lit "0x")
  else PString [].

(** The values [RLP.encode] takes: numbers that are not negative,
    strings, and arrays of such values. *)
Fixpoint encodable (v : jsvalue) : bool :=
  match v with
  | VPrim (PNumber x) => negb (JS.ltb x 0)
  | VPrim (PString _) => true
  | VPrim _ => false
  | VArray items => forallb encodable items
  | VObject _ => false
  end.

(** A text on which the loop of [decodeList] comes back to where it was:
    the length [0b] at index 2 leads to index 15, the length [-f] there
    leads back to index 2. *)
Definition loopingText : jsstring := lit "c00b00000000000-f".

(** The character [-]. *)
Definition minus : Z := 45.

(** * Properties *)

(** Decides the comparisons of type tags met in a goal. *)
Ltac dispatch :=
  repeat match goal with
    | |- context [streq ?a ?b] =>
        let r := eval vm_compute in (streq a b) in
        change (streq a b) with r
    end;
  cbv iota.

(** ** Radix-16 printing *)
Section Radix16.

Lemma hexDigits_hexOf (fuel : nat) :
  forall n acc, JS.hexDigits fuel n acc = hexOf fuel n ++ acc.
Proof.
  induction fuel as [|f IH]; intros n acc; simpl; [reflexivity|].
  destruct (n <? 16); [reflexivity|].
  rewrite IH, <- app_assoc. reflexivity.
Qed.

Lemma natToString16_hexOf (n : Z) :
  JS.natToString16 n = hexOf (S (Z.to_nat (Z.log2 n))) n.
Proof.
  unfold JS.natToString16. rewrite hexDigits_hexOf, app_nil_r. reflexivity.
Qed.

(** The fuel [natToString16] takes covers the digits of its argument. *)
Lemma fuel_enough (n : Z) :
  0 <= n -> n < 16 ^ Z.of_nat (S (Z.to_nat (Z.log2 n))).
Proof.
  intros Hn.
  assert (Hl : 0 <= Z.log2 n) by apply Z.log2_nonneg.
  rewrite Nat2Z.inj_succ, Z2Nat.id by assumption.
  destruct (Z.eq_dec n 0) as [->|Hz]; [reflexivity|].
  assert (Hlt : n < 2 ^ Z.succ (Z.log2 n))
    by (apply Z.log2_spec; lia).
  eapply Z.lt_le_trans; [exact Hlt|].
  apply Z.pow_le_mono_l. lia.
Qed.

(** A property of the sixteen digit values is checked on each of them. *)
Lemma digit_cases (P : Z -> Prop) :
  Forall P (map Z.of_nat (seq 0 16)) -> forall d, 0 <= d < 16 -> P d.
Proof.
  intros H d Hd. rewrite Forall_forall in H. apply H.
  apply in_map_iff. exists (Z.to_nat d).
  split; [lia|apply in_seq; lia].
Qed.

Lemma digitIn_hexChar (d : Z) :
  0 <= d < 16 -> JS.digitIn 16 (JS.hexChar d) = Some d.
Proof.
  revert d. apply digit_cases. cbn [seq map].
  repeat (constructor; [reflexivity|]). constructor.
Qed.

Lemma allDigits_app (radix : Z) (s t : jsstring) :
  forall acc,
    JS.allDigits radix (s ++ t) acc =
    match JS.allDigits radix s acc with
    | Some v => JS.allDigits radix t v
    | None => None
    end.
Proof.
  induction s as [|c s IH]; intros acc; simpl; [reflexivity|].
  destruct (JS.digitIn radix c); [apply IH|reflexivity].
Qed.

(** Reading the printed digits gives the number back. *)
Lemma allDigits_hexOf (fuel : nat) :
  forall n, 0 <= n < 16 ^ Z.of_nat fuel ->
            JS.allDigits 16 (hexOf fuel n) 0 = Some n.
Proof.
  induction fuel as [|f IH]; intros n Hn.
  - simpl in *. f_equal; lia.
  - simpl hexOf. destruct (Z.ltb_spec n 16) as [Hs|Hs].
    + simpl. rewrite digitIn_hexChar by lia. f_equal; lia.
    + rewrite allDigits_app, IH.
      * simpl. rewrite digitIn_hexChar by (apply Z.mod_pos_bound; lia).
        f_equal; pose proof (Z.div_mod n 16); lia.
      * rewrite Nat2Z.inj_succ, Z.pow_succ_r in Hn by lia.
        split; [apply Z.div_pos; lia|].
        apply Z.div_lt_upper_bound; lia.
Qed.

Lemma allDigits_natToString16 (n : Z) :
  0 <= n -> JS.allDigits 16 (JS.natToString16 n) 0 = Some n.
Proof.
  intros Hn. rewrite natToString16_hexOf.
  apply allDigits_hexOf. split; [assumption|]. apply fuel_enough, Hn.
Qed.

Lemma hexOf_nonempty (f : nat) (n : Z) : hexOf (S f) n <> [].
Proof.
  simpl. destruct (n <? 16); [discriminate|].
  destruct (hexOf f (n / 16)); discriminate.
Qed.

(** A number below [16 ^ k] prints in at most [k] digits. *)
Lemma hexOf_length_le (fuel : nat) :
  forall n k, 0 <= n < 16 ^ Z.of_nat (S k) ->
              (length (hexOf fuel n) <= S k)%nat.
Proof.
  induction fuel as [|f IH]; intros n k Hn; simpl; [lia|].
  destruct (Z.ltb_spec n 16) as [Hs|Hs]; [simpl; lia|].
  rewrite length_app. simpl.
  destruct k as [|k].
  - simpl in Hn. lia.
  - assert (length (hexOf f (n / 16)) <= S k)%nat; [|lia].
    apply IH.
    rewrite Nat2Z.inj_succ, Z.pow_succ_r in Hn by lia.
    split; [apply Z.div_pos; lia|].
    apply Z.div_lt_upper_bound; lia.
Qed.

(** A number from [16 ^ k] on prints in more than [k] digits. *)
Lemma hexOf_length_gt (fuel : nat) :
  forall n k, 16 ^ Z.of_nat k <= n < 16 ^ Z.of_nat fuel ->
              (k < length (hexOf fuel n))%nat.
Proof.
  induction fuel as [|f IH]; intros n k Hn.
  - lia.
  - simpl hexOf. destruct (Z.ltb_spec n 16) as [Hs|Hs].
    + simpl. destruct k as [|k]; [lia|].
      rewrite Nat2Z.inj_succ, Z.pow_succ_r in Hn by lia.
      assert (0 < 16 ^ Z.of_nat k) by (apply Z.pow_pos_nonneg; lia). lia.
    + rewrite length_app. simpl.
      destruct k as [|k]; [lia|].
      assert (k < length (hexOf f (n / 16)))%nat; [|lia].
      apply IH.
      rewrite !Nat2Z.inj_succ, !Z.pow_succ_r in Hn by lia.
      split.
      * apply Z.div_le_lower_bound; lia.
      * apply Z.div_lt_upper_bound; lia.
Qed.

End Radix16.

(** ** RLP encoding *)
Section RLPEncode.

Lemma natToString16_small (n : Z) :
  0 <= n < 256 -> JS.natToString16 n = minimalHex n.
Proof.
  intros Hn. unfold JS.natToString16, minimalHex. simpl JS.hexDigits.
  destruct (Z.ltb_spec n 16) as [Hs|Hs]; [reflexivity|].
  assert (Hl : 4 <= Z.log2 n) by (apply Z.log2_le_pow2; simpl; lia).
  destruct (Z.to_nat (Z.log2 n)) as [|f] eqn:Hf; [lia|].
  simpl.
  assert (Hq : n / 16 < 16) by (apply Z.div_lt_upper_bound; lia).
  apply Z.ltb_lt in Hq. rewrite Hq. reflexivity.
Qed.

Lemma parseDigits_minimalHex (n : Z) :
  0 <= n < 256 -> JS.parseDigits 16 (minimalHex n) = Some n.
Proof.
  intros Hn. rewrite <- natToString16_small by assumption.
  pose proof (allDigits_natToString16 n (proj1 Hn)) as Ha.
  rewrite natToString16_hexOf in *.
  pose proof (hexOf_nonempty (Z.to_nat (Z.log2 n)) n) as Hne.
  destruct (hexOf _ n); [contradiction|exact Ha].
Qed.

(** C7: a number from 0 to 127 encodes to [0x] followed by its minimal
    radix-16 digits and nothing else, and those digits read back as the
    number. *)
Theorem rlp_encode_small_number (n : Z) :
  0 <= n <= 127 ->
  RLP.encode (VPrim (PNumber (NInt n))) = Ret (lit "0x" ++ minimalHex n)
  /\ JS.parseDigits 16 (minimalHex n) = Some n.
Proof.
  intros Hn. split; [|apply parseDigits_minimalHex; lia].
  simpl RLP.encode. unfold RLP.encodeNumber, JS.ltb, JS.leb.
  destruct (Z.ltb_spec n 0) as [?|_]; [lia|].
  destruct (Z.leb_spec n 127) as [_|?]; [|lia].
  unfold JS.toString16, JS.bigIntToString16.
  destruct (Z.ltb_spec n 0) as [?|_]; [lia|].
  rewrite natToString16_small by lia. reflexivity.
Qed.

(** [RLP.encode(123) == "0x7b"]. *)
Lemma rlp_encode_small_number_witness :
  RLP.encode (VPrim (PNumber (NInt 123))) = Ret (lit "0x7b")
  /\ JS.parseDigits 16 (lit "7b") = Some 123.
Proof. apply (rlp_encode_small_number 123). lia. Defined.

Lemma encode_array (items : list jsvalue) :
  RLP.encode (VArray items) = RLP.encodeList items.
Proof.
  unfold RLP.encodeList. cbn [RLP.encode].
  match goal with
  | |- bind (?f items) _ = _ =>
      assert (Hf : forall l, f l = RLP.encodeItems l)
  end.
  { induction l as [|item rest IH]; [reflexivity|].
    cbn [RLP.encodeItems]. rewrite <- IH. reflexivity. }
  rewrite Hf. reflexivity.
Qed.

Lemma natToString16_nonempty (n : Z) : JS.natToString16 n <> [].
Proof. rewrite natToString16_hexOf. apply hexOf_nonempty. Qed.

Lemma test_dot (s : jsstring) : In dot s -> HexUtils.test s = false.
Proof.
  intros Hin. destruct s as [|a [|b [|d r]]]; try reflexivity.
  unfold HexUtils.test.
  destruct (Z.eqb_spec a 48) as [->|]; [|reflexivity].
  destruct (Z.eqb_spec b 120) as [->|]; [|reflexivity].
  simpl andb.
  destruct Hin as [Hin|[Hin|Hin]]; [discriminate Hin|discriminate Hin|].
  apply not_true_is_false. intros Hall.
  change (forallb JS.isHexDigit (d :: r) = true) in Hall.
  rewrite forallb_forall in Hall. specialize (Hall _ Hin).
  discriminate Hall.
Qed.

(** C9: when the encodings of the items of a list, joined, have an odd
    number of characters, the byte count is a half-integer, its radix-16
    text ends in [.8], and the result holds a [.] and is no well-formed
    [0x] hex text; a list of one number from 0 to 15 is such a list, and
    [RLP.encode([5])] is [0x0.85]. *)
Theorem rlp_encode_odd_list :
  (forall (items : list jsvalue) (parts : list jsstring),
      RLP.encodeItems items = Ret parts ->
      Z.odd (len (concat parts)) = true ->
      exists out,
        RLP.encode (VArray items) = Ret out
        /\ out = lit "0x" ++ JS.natToString16 (len (concat parts) / 2)
                   ++ lit ".8" ++ concat parts
        /\ JS.half (len (concat parts)) = NHalf (len (concat parts) / 2)
        /\ In dot out
        /\ HexUtils.test out = false)
  /\ (forall n, 0 <= n <= 15 ->
        RLP.encode (VArray [VPrim (PNumber (NInt n))])
        = Ret (lit "0x0.8" ++ [JS.hexChar n]))
  /\ RLP.encode (VArray [VPrim (PNumber (NInt 5))]) = Ret (lit "0x0.85").
Proof.
  split; [|split; [|reflexivity]].
  - intros items parts Hparts Hodd.
    assert (Hhalf : JS.half (len (concat parts))
                    = NHalf (len (concat parts) / 2)).
    { unfold JS.half. rewrite <- Z.negb_odd, Hodd. reflexivity. }
    assert (Hk : 0 <= len (concat parts) / 2)
      by (apply Z.div_pos; unfold len; lia).
    eexists. split; [|split; [reflexivity|split; [exact Hhalf|]]].
    + rewrite encode_array. unfold RLP.encodeList. rewrite Hparts.
      cbn [bind]. unfold RLP.joinList, RLP.intToHex. rewrite Hhalf.
      unfold JS.toString16.
      destruct (Z.ltb_spec (len (concat parts) / 2) 0) as [?|_]; [lia|].
      rewrite <- app_assoc. reflexivity.
    + assert (Hin : In dot (lit "0x"
                      ++ JS.natToString16 (len (concat parts) / 2)
                      ++ lit ".8" ++ concat parts)).
      { apply in_or_app. right. apply in_or_app. right. left. reflexivity. }
      split; [exact Hin|apply test_dot, Hin].
  - intros n Hn. assert (Hd : 0 <= n < 16) by lia. clear Hn.
    revert n Hd. apply digit_cases. cbn [seq map].
    repeat (constructor; [reflexivity|]). constructor.
Qed.

(** The list [[5]]: one item, one character, half a byte. *)
Lemma rlp_encode_odd_list_witness :
  exists out,
    RLP.encode (VArray [VPrim (PNumber (NInt 5))]) = Ret out
    /\ out = lit "0x" ++ JS.natToString16 (1 / 2) ++ lit ".8" ++ lit "5"
    /\ JS.half 1 = NHalf (1 / 2)
    /\ In dot out
    /\ HexUtils.test out = false.
Proof.
  apply (proj1 rlp_encode_odd_list
           [VPrim (PNumber (NInt 5))] [lit "5"]); reflexivity.
Defined.

End RLPEncode.

(** ** Strings *)
Section Strings.

Lemma streq_eq (a : jsstring) : forall b, streq a b = true -> a = b.
Proof.
  induction a as [|x a IH]; intros [|y b] H; simpl in H;
    try discriminate; [reflexivity|].
  apply andb_true_iff in H. destruct H as [Hx Hr].
  apply Z.eqb_eq in Hx. subst y. f_equal. apply IH, Hr.
Qed.

Lemma streq_refl (a : jsstring) : streq a a = true.
Proof.
  induction a as [|x a IH]; simpl; [reflexivity|].
  rewrite Z.eqb_refl, IH. reflexivity.
Qed.

Lemma len_app {A : Type} (s t : list A) : len (s ++ t) = len s + len t.
Proof. unfold len. rewrite length_app. lia. Qed.

Lemma len_nonneg {A : Type} (s : list A) : 0 <= len s.
Proof. unfold len. lia. Qed.

Lemma padStart_len (s : jsstring) (n c : Z) :
  len (JS.padStart s n c) = Z.max n (len s).
Proof.
  unfold JS.padStart. rewrite len_app. unfold len at 1.
  rewrite repeat_length. pose proof (len_nonneg s). lia.
Qed.

Lemma padStart_long (s : jsstring) (n c : Z) :
  n <= len s -> JS.padStart s n c = s.
Proof.
  intros H. unfold JS.padStart.
  replace (Z.to_nat (n - len s)) with 0%nat by lia. reflexivity.
Qed.

Lemma sliceFrom_skipn (s : jsstring) (k : Z) :
  0 <= k <= len s -> JS.sliceFrom s k = skipn (Z.to_nat k) s.
Proof.
  intros Hk. unfold JS.sliceFrom, JS.slice, JS.clampIndex.
  destruct (Z.ltb_spec k 0) as [?|_]; [lia|].
  destruct (Z.ltb_spec (len s) 0) as [?|_]; [lia|].
  rewrite Z.min_id, Z.min_l by lia.
  apply firstn_all2. rewrite length_skipn. unfold len in *. lia.
Qed.

Lemma sliceFrom_app (p s : jsstring) :
  JS.sliceFrom (p ++ s) (len p) = s.
Proof.
  rewrite sliceFrom_skipn.
  - unfold len. rewrite Nat2Z.id, skipn_app, skipn_all, Nat.sub_diag.
    reflexivity.
  - rewrite len_app. pose proof (len_nonneg p). pose proof (len_nonneg s).
    lia.
Qed.

Lemma slice_app_prefix (p a s : jsstring) :
  JS.slice (p ++ a ++ s) (len p) (len p + len a) = a.
Proof.
  unfold JS.slice, JS.clampIndex. rewrite !len_app.
  pose proof (len_nonneg p). pose proof (len_nonneg a).
  pose proof (len_nonneg s).
  destruct (Z.ltb_spec (len p) 0) as [?|_]; [lia|].
  destruct (Z.ltb_spec (len p + len a) 0) as [?|_]; [lia|].
  rewrite !Z.min_l by lia.
  replace (Z.to_nat (len p + len a - len p)) with (length a)
    by (unfold len; lia).
  unfold len at 1. rewrite Nat2Z.id, skipn_app, skipn_all, Nat.sub_diag.
  simpl. rewrite firstn_app, firstn_all, Nat.sub_diag. simpl.
  apply app_nil_r.
Qed.

(** A string the pattern of [isHex] accepts starts with [0x]. *)
Lemma test_prefix (s : jsstring) :
  HexUtils.test s = true ->
  exists d r, s = lit "0x" ++ d :: r
              /\ forallb JS.isHexDigit (d :: r) = true.
Proof.
  destruct s as [|a [|b [|d r]]]; try discriminate.
  unfold HexUtils.test. intros H.
  apply andb_true_iff in H. destruct H as [H Hall].
  apply andb_true_iff in H. destruct H as [Ha Hb].
  apply Z.eqb_eq in Ha, Hb. subst a b.
  exists d, r. split; [reflexivity|exact Hall].
Qed.

(** A string of hex digits alone is not accepted: it lacks the prefix. *)
Lemma test_digits (s : jsstring) :
  forallb JS.isHexDigit s = true -> HexUtils.test s = false.
Proof.
  intros Hall. destruct (HexUtils.test s) eqn:Ht; [|reflexivity].
  destruct (test_prefix s Ht) as (d & r & -> & _).
  simpl in Hall. discriminate Hall.
Qed.

End Strings.

(** ** ABI encoding *)
Section ABIEncode.

(** C10: a valid [0x] hex string shorter than 64 characters is padded
    whole by [bytes]: the word has 64 characters, is the zeros followed
    by the string, shows [0x] at offset 64 minus the length of the
    string, and so is no word of 64 hex digits. *)
Theorem abi_encode_bytes_keeps_prefix (v : jsstring) :
  HexUtils.test v = true ->
  len v < 64 ->
  exists word,
    ABIUtils.encodeParameter (lit "bytes") (PString v) = Ret word
    /\ word = zeros (Z.to_nat (64 - len v)) ++ v
    /\ len word = 64
    /\ JS.slice word (64 - len v) (64 - len v + 2) = lit "0x"
    /\ In letterX word
    /\ forallb JS.isHexDigit word = false.
Proof.
  intros Ht Hlen. unfold ABIUtils.encodeParameter. dispatch.
  unfold ABIUtils.encodeBytes. cbn [HexUtils.isHex]. rewrite Ht.
  cbn [negb]. eexists. split; [reflexivity|].
  split; [reflexivity|].
  pose proof (len_nonneg v) as Hv.
  assert (Hx : In letterX (JS.padStart v 64 48)).
  { destruct (test_prefix v Ht) as (d & r & -> & _).
    apply in_or_app. right. right. left. reflexivity. }
  split; [rewrite padStart_len; lia|].
  split; [|split; [exact Hx|]].
  - unfold JS.padStart.
    destruct (test_prefix v Ht) as (d & r & Hs & _).
    remember (repeat 48 (Z.to_nat (64 - len v))) as pad eqn:Hpad.
    assert (Hp : 64 - len v = len pad)
      by (subst pad; unfold len at 2; rewrite repeat_length; lia).
    rewrite Hp, Hs.
    exact (slice_app_prefix pad (lit "0x") (d :: r)).
  - apply not_true_is_false. intros Hall.
    rewrite forallb_forall in Hall. specialize (Hall _ Hx).
    discriminate Hall.
Qed.

(** The string [0x1234] becomes 58 zeros followed by [0x1234]. *)
Lemma abi_encode_bytes_keeps_prefix_witness :
  exists word,
    ABIUtils.encodeParameter (lit "bytes") (PString (lit "0x1234"))
    = Ret word
    /\ word = zeros 58 ++ lit "0x1234"
    /\ len word = 64
    /\ JS.slice word 58 60 = lit "0x"
    /\ In letterX word
    /\ forallb JS.isHexDigit word = false.
Proof.
  apply (abi_encode_bytes_keeps_prefix (lit "0x1234")).
  - reflexivity.
  - reflexivity.
Defined.

(** The address of the example, as given and in lowercase. *)
Lemma abi_encode_address_not_lowercase :
  ABIUtils.encodeParameter (lit "address")
    (PString (lit "0x32Be343B94f860124dC4fEe278FDCBD38C102D88"))
  <> Ret (zeros 24 ++ lit "32be343b94f860124dc4fee278fdcbd38c102d88").
Proof. vm_compute. discriminate. Qed.

(** C6, amended: the address of the example encodes to its 40 digits in
    the case they were given in, after 24 zeros; the word has 64
    characters and decodes to the address as given. *)
Theorem abi_encode_address_example :
  ABIUtils.encodeParameter (lit "address")
    (PString (lit "0x32Be343B94f860124dC4fEe278FDCBD38C102D88"))
  = Ret (zeros 24 ++ lit "32Be343B94f860124dC4fEe278FDCBD38C102D88")
  /\ len (zeros 24 ++ lit "32Be343B94f860124dC4fEe278FDCBD38C102D88") = 64
  /\ ABIUtils.decodeParameter (lit "address")
       (zeros 24 ++ lit "32Be343B94f860124dC4fEe278FDCBD38C102D88")
     = Ret (PString (lit "0x32Be343B94f860124dC4fEe278FDCBD38C102D88")).
Proof. repeat split. Qed.

(** C3: [bytes32] demands the [0x] prefix of [isHex].  A string of 64
    hex digits is rejected for its format; a string of another length
    for its length; what is accepted, and returned unchanged, is [0x]
    followed by 62 hex digits. *)
Theorem abi_encode_bytes32 :
  (forall w, len w = 64 -> forallb JS.isHexDigit w = true ->
             ABIUtils.encodeParameter (lit "bytes32") (PString w)
             = Throw ABIUtils.formatError)
  /\ (forall w, len w <> 64 ->
                ABIUtils.encodeParameter (lit "bytes32") (PString w)
                = Throw ABIUtils.lengthError)
  /\ (forall w, len w = 64 -> HexUtils.test w = false ->
                ABIUtils.encodeParameter (lit "bytes32") (PString w)
                = Throw ABIUtils.formatError)
  /\ (forall w, len w = 64 -> HexUtils.test w = true ->
                ABIUtils.encodeParameter (lit "bytes32") (PString w)
                = Ret w).
Proof.
  unfold ABIUtils.encodeParameter. dispatch.
  unfold ABIUtils.encodeBytes32. cbn [HexUtils.isHex].
  repeat split; intros w Hl.
  - intros Hd. apply Z.eqb_eq in Hl. rewrite Hl, (test_digits w Hd).
    reflexivity.
  - apply Z.eqb_neq in Hl. rewrite Hl. reflexivity.
  - intros Ht. apply Z.eqb_eq in Hl. rewrite Hl, Ht. reflexivity.
  - intros Ht. apply Z.eqb_eq in Hl. rewrite Hl, Ht. reflexivity.
Qed.

(** Sixty-four digits [a] are rejected for their format. *)
Lemma abi_encode_bytes32_witness :
  ABIUtils.encodeParameter (lit "bytes32") (PString (repeat 97 64))
  = Throw ABIUtils.formatError.
Proof.
  apply (proj1 abi_encode_bytes32 (repeat 97 64)); reflexivity.
Defined.

End ABIEncode.

(** ** JSON type inference and dispatch *)
Section JSON.

(** C2: [getType] asks for a string before it asks for hex, so a
    hex-formatted string is tagged [string]; a number is [uint256], a
    boolean [bool], an array [bytes[]]; [undefined], [null], a big
    integer and a plain object fail; and no value of the model is ever
    tagged [bytes32]. *)
Theorem json_getType :
  (forall s, JSONUtils.getType (VPrim (PString s)) = Ret (lit "string"))
  /\ JSONUtils.getType (VPrim (PString (lit "0x1234"))) = Ret (lit "string")
  /\ HexUtils.isHex (VPrim (PString (lit "0x1234"))) = true
  /\ (forall x, JSONUtils.getType (VPrim (PNumber x)) = Ret (lit "uint256"))
  /\ (forall b, JSONUtils.getType (VPrim (PBool b)) = Ret (lit "bool"))
  /\ (forall items,
        JSONUtils.getType (VArray items) = Ret (lit "bytes[]"))
  /\ JSONUtils.getType (VPrim PUndefined) = Throw JSONUtils.unsupportedType
  /\ JSONUtils.getType (VPrim PNull) = Throw JSONUtils.unsupportedType
  /\ (forall z,
        JSONUtils.getType (VPrim (PBigInt z))
        = Throw JSONUtils.unsupportedType)
  /\ (forall fields,
        JSONUtils.getType (VObject fields)
        = Throw JSONUtils.unsupportedType)
  /\ (forall value, JSONUtils.getType value <> Ret (lit "bytes32")).
Proof.
  repeat split; try reflexivity.
  intros [[| |b|x|z|s]|items|fields]; discriminate.
Qed.

(** C8: [null] has type [object], so [encodeJSON] hands it to
    [encodeObject], whose loop visits nothing: the result is the empty
    string.  Every other primitive fails. *)
Theorem json_encodeJSON_primitive :
  JSONUtils.encodeJSON (VPrim PNull) = Ret []
  /\ (forall p, p <> PNull ->
                JSONUtils.encodeJSON (VPrim p)
                = Throw JSONUtils.notObjectOrArray).
Proof.
  split; [reflexivity|].
  intros [| |b|x|z|s] Hp; try reflexivity. contradiction.
Qed.

(** The number 5 is rejected. *)
Lemma json_encodeJSON_primitive_witness :
  JSONUtils.encodeJSON (VPrim (PNumber (NInt 5)))
  = Throw JSONUtils.notObjectOrArray.
Proof.
  apply (proj2 json_encodeJSON_primitive (PNumber (NInt 5))).
  discriminate.
Defined.

End JSON.

(** ** RLP decoding *)
Section RLPDecode.

Lemma digitIn_range (radix c d : Z) :
  JS.digitIn radix c = Some d -> 0 <= d < radix.
Proof.
  unfold JS.digitIn, JS.digitVal. intros H.
  destruct ((48 <=? c) && (c <=? 57)) eqn:H1.
  - apply andb_true_iff in H1. destruct H1 as [Ha Hb].
    apply Z.leb_le in Ha, Hb.
    destruct (Z.ltb_spec (c - 48) radix); inversion H; subst; lia.
  - destruct ((97 <=? c) && (c <=? 122)) eqn:H2.
    + apply andb_true_iff in H2. destruct H2 as [Ha Hb].
      apply Z.leb_le in Ha, Hb.
      destruct (Z.ltb_spec (c - 87) radix); inversion H; subst; lia.
    + destruct ((65 <=? c) && (c <=? 90)) eqn:H3; [|discriminate].
      apply andb_true_iff in H3. destruct H3 as [Ha Hb].
      apply Z.leb_le in Ha, Hb.
      destruct (Z.ltb_spec (c - 55) radix); inversion H; subst; lia.
Qed.

(** [parseInt] of one character is a digit value, or [NaN]. *)
Lemma parseInt16_char (c : Z) :
  match JS.parseInt16 [c] with
  | Some v => 0 <= v <= 15
  | None => True
  end.
Proof.
  unfold JS.parseInt16. cbn [JS.trimStart].
  destruct (JS.isWhiteSpace c); [exact I|].
  destruct (c =? 45); [exact I|].
  destruct (c =? 43); [exact I|].
  cbn [JS.readDigits].
  destruct (JS.digitIn 16 c) as [d|] eqn:Hd; [|exact I].
  apply digitIn_range in Hd. lia.
Qed.

Lemma parseInt16_at0 (s : jsstring) :
  match JS.parseInt16 (JS.at0 s) with
  | Some v => 0 <= v <= 15
  | None => True
  end.
Proof.
  destruct s as [|c r]; [exact I|]. apply parseInt16_char.
Qed.

(** C1: [decode] tests the value of the first hex digit, not of the
    first pair.  That value is at most 15, so the list branch is never
    taken: whatever the fuel, [decode] answers, and its answer is the
    length error, the format error for a first character that is no hex
    digit, or the string [decodeString] reads from all the text.  In
    particular [0xc0] and [0x80] both decode to a string. *)
Theorem rlp_decode_never_list :
  (forall fuel hexString,
      RLP.decode fuel hexString = Some (Throw RLP.tooShort)
      \/ RLP.decode fuel hexString = Some (Throw RLP.unsupportedFormat)
      \/ RLP.decode fuel hexString
         = Some (Ret (VPrim (PString
             (RLP.decodeString (JS.sliceFrom hexString 2))))))
  /\ (forall fuel hexString items,
        RLP.decode fuel hexString <> Some (Ret (VArray items)))
  /\ (forall fuel,
        RLP.decode fuel (lit "0xc0")
        = Some (Ret (VPrim (PString [65533]))))
  /\ (forall fuel,
        RLP.decode fuel (lit "0x80")
        = Some (Ret (VPrim (PString [65533])))).
Proof.
  assert (Hgen : forall fuel hexString,
      RLP.decode fuel hexString = Some (Throw RLP.tooShort)
      \/ RLP.decode fuel hexString = Some (Throw RLP.unsupportedFormat)
      \/ RLP.decode fuel hexString
         = Some (Ret (VPrim (PString
             (RLP.decodeString (JS.sliceFrom hexString 2)))))).
  { intros fuel hexString. unfold RLP.decode.
    destruct (len hexString <? 2); [left; reflexivity|].
    pose proof (parseInt16_at0 (JS.sliceFrom hexString 2)) as Hp.
    destruct (JS.parseInt16 (JS.at0 (JS.sliceFrom hexString 2)))
      as [v|]; cbn [JS.nanLe JS.nanGe].
    - destruct (Z.leb_spec v 127) as [_|?]; [|lia].
      right. right. reflexivity.
    - right. left. reflexivity. }
  split; [exact Hgen|]. split; [|split; intros fuel; reflexivity].
  intros fuel hexString items Heq.
  destruct (Hgen fuel hexString) as [H|[H|H]];
    rewrite H in Heq; discriminate Heq.
Qed.

End RLPDecode.

(** ** The length of an ABI word *)
Section WordLength.

Lemma pow16_64 : 16 ^ Z.of_nat 64 = 2 ^ 256.
Proof. reflexivity. Qed.

Lemma uint_digits_le (z : Z) :
  0 <= z < 2 ^ 256 -> len (JS.bigIntToString16 z) <= 64.
Proof.
  intros Hz. unfold JS.bigIntToString16.
  destruct (Z.ltb_spec z 0) as [?|_]; [lia|].
  rewrite natToString16_hexOf.
  pose proof (hexOf_length_le (S (Z.to_nat (Z.log2 z))) z 63) as Hl.
  rewrite pow16_64 in Hl. unfold len. lia.
Qed.

Lemma uint_digits_gt (z : Z) :
  2 ^ 256 <= z -> 64 < len (JS.bigIntToString16 z).
Proof.
  intros Hz. unfold JS.bigIntToString16.
  assert (0 < 2 ^ 256) by reflexivity.
  destruct (Z.ltb_spec z 0) as [?|_]; [lia|].
  rewrite natToString16_hexOf.
  pose proof (hexOf_length_gt (S (Z.to_nat (Z.log2 z))) z 64) as Hl.
  rewrite pow16_64 in Hl.
  pose proof (fuel_enough z). unfold len. lia.
Qed.

Lemma len_sliceFrom (s : jsstring) (k : Z) :
  0 <= k <= len s -> len (JS.sliceFrom s k) = len s - k.
Proof.
  intros Hk. rewrite sliceFrom_skipn by assumption.
  unfold len in *. rewrite length_skipn. lia.
Qed.

(** At [2 ^ 256] the digits of a [uint256] fill 65 characters. *)
Lemma abi_word_length_counterexample :
  ABIUtils.encodeParameter (lit "uint256") (PBigInt (2 ^ 256))
  = Ret (49 :: zeros 64)
  /\ len (49 :: zeros 64) = 65.
Proof. split; reflexivity. Qed.

(** C5, amended: a word [encodeParameter] returns has exactly 64
    characters, except that it is longer, and is the unpadded text, for a
    [string] whose hex encoding exceeds 64 characters, for a [bytes]
    value longer than 64 characters, and for a [uint256] from [2 ^ 256]
    on; none of the three is rejected. *)
Theorem abi_word_length :
  (forall type value word,
      ABIUtils.encodeParameter type value = Ret word ->
      len word = 64
      \/ (64 < len word
          /\ ((type = lit "string"
               /\ exists s, value = PString s
                            /\ word = JS.bufferToHex (JS.bufferFromUtf8 s))
              \/ (type = lit "bytes" /\ value = PString word)
              \/ (type = lit "uint256"
                  /\ exists z, JS.BigInt value = Ret z
                               /\ 2 ^ 256 <= z
                               /\ word = JS.bigIntToString16 z))))
  /\ (forall s,
        64 < len (JS.bufferToHex (JS.bufferFromUtf8 s)) ->
        ABIUtils.encodeParameter (lit "string") (PString s)
        = Ret (JS.bufferToHex (JS.bufferFromUtf8 s)))
  /\ (forall v,
        HexUtils.test v = true -> 64 < len v ->
        ABIUtils.encodeParameter (lit "bytes") (PString v) = Ret v)
  /\ (forall z,
        2 ^ 256 <= z ->
        ABIUtils.encodeParameter (lit "uint256") (PBigInt z)
        = Ret (JS.bigIntToString16 z)
        /\ 64 < len (JS.bigIntToString16 z)).
Proof.
  split; [|split; [|split]].
  - intros type value word. unfold ABIUtils.encodeParameter.
    destruct (streq type (lit "uint256")) eqn:T1.
    { apply streq_eq in T1. unfold ABIUtils.encodeUInt256.
      destruct (JS.BigInt value) as [z|e] eqn:Hb; cbn [bind];
        [|discriminate].
      destruct (Z.ltb_spec z 0) as [?|Hz]; [discriminate|].
      intros H. inversion H as [Hw]. clear H.
      rewrite padStart_len.
      destruct (Z_lt_le_dec z (2 ^ 256)) as [Hlt|Hge].
      - left. pose proof (uint_digits_le z (conj Hz Hlt)). lia.
      - right. pose proof (uint_digits_gt z Hge) as Hg.
        split; [lia|]. right. right. split; [exact T1|].
        exists z. repeat split; try assumption.
        apply padStart_long. lia. }
    destruct (streq type (lit "string")) eqn:T2.
    { apply streq_eq in T2. unfold ABIUtils.encodeString.
      destruct value as [| |b|x|z|s]; try discriminate.
      intros H. inversion H as [Hw]. clear H.
      rewrite padStart_len.
      destruct (Z_le_gt_dec
                  (len (JS.bufferToHex (JS.bufferFromUtf8 s))) 64)
        as [Hle|Hgt].
      - left. lia.
      - right. split; [lia|]. left. split; [exact T2|].
        exists s. split; [reflexivity|]. apply padStart_long. lia. }
    destruct (streq type (lit "bool")) eqn:T3.
    { unfold ABIUtils.encodeBool. intros H. inversion H as [Hw].
      left. destruct (JS.truthy value); reflexivity. }
    destruct (streq type (lit "address")) eqn:T4.
    { unfold ABIUtils.encodeAddress.
      destruct value as [| |b|x|z|s]; try discriminate.
      destruct (negb (HexUtils.isHex (VPrim (PString s)))); cbn [orb];
        [discriminate|].
      destruct (Z.eqb_spec (len s) 42) as [Hl|?]; cbn [negb];
        [|discriminate].
      intros H. inversion H as [Hw]. clear H. left.
      rewrite padStart_len, len_sliceFrom by lia. lia. }
    destruct (streq type (lit "bytes32")) eqn:T5.
    { unfold ABIUtils.encodeBytes32.
      destruct value as [| |b|x|z|s]; try discriminate.
      destruct (Z.eqb_spec (len s) 64) as [Hl|?]; cbn [negb];
        [|discriminate].
      destruct (negb (HexUtils.isHex (VPrim (PString s))));
        [discriminate|].
      intros H. inversion H as [Hw]. subst word. left. exact Hl. }
    destruct (streq type (lit "bytes")) eqn:T6; [|discriminate].
    apply streq_eq in T6. unfold ABIUtils.encodeBytes.
    destruct value as [| |b|x|z|s]; try discriminate.
    destruct (negb (HexUtils.isHex (VPrim (PString s))));
      [discriminate|].
    intros H. inversion H as [Hw]. clear H.
    rewrite padStart_len.
    destruct (Z_le_gt_dec (len s) 64) as [Hle|Hgt].
    + left. lia.
    + right. split; [lia|]. right. left. split; [exact T6|].
      rewrite padStart_long by lia. reflexivity.
  - intros s Hs. unfold ABIUtils.encodeParameter. dispatch.
    unfold ABIUtils.encodeString. rewrite padStart_long by lia.
    reflexivity.
  - intros v Ht Hv. unfold ABIUtils.encodeParameter. dispatch.
    unfold ABIUtils.encodeBytes. cbn [HexUtils.isHex]. rewrite Ht.
    cbn [negb]. rewrite padStart_long by lia. reflexivity.
  - intros z Hz. pose proof (uint_digits_gt z Hz) as Hg.
    split; [|exact Hg].
    assert (0 < 2 ^ 256) by reflexivity.
    unfold ABIUtils.encodeParameter. dispatch.
    unfold ABIUtils.encodeUInt256. cbn [JS.BigInt bind].
    destruct (Z.ltb_spec z 0) as [?|_]; [lia|].
    rewrite padStart_long by lia. reflexivity.
Qed.

(** The number 1 fills one word. *)
Lemma abi_word_length_witness :
  len (zeros 63 ++ lit "1") = 64
  \/ (64 < len (zeros 63 ++ lit "1")
      /\ ((lit "uint256" = lit "string"
           /\ exists s, PBigInt 1 = PString s
                        /\ zeros 63 ++ lit "1"
                           = JS.bufferToHex (JS.bufferFromUtf8 s))
          \/ (lit "uint256" = lit "bytes"
              /\ PBigInt 1 = PString (zeros 63 ++ lit "1"))
          \/ (lit "uint256" = lit "uint256"
              /\ exists z, JS.BigInt (PBigInt 1) = Ret z
                           /\ 2 ^ 256 <= z
                           /\ zeros 63 ++ lit "1"
                              = JS.bigIntToString16 z))).
Proof.
  apply (proj1 abi_word_length (lit "uint256") (PBigInt 1)).
  reflexivity.
Defined.

End WordLength.

(** ** Buffers: hex and UTF-8 there and back *)
Section Buffers.

Lemma bufferFromHex_zeros (j : nat) (h : jsstring) :
  JS.bufferFromHex (repeat 48 (2 * j) ++ h)
  = repeat 0 j ++ JS.bufferFromHex h.
Proof.
  induction j as [|j IH]; [reflexivity|].
  replace (2 * S j)%nat with (S (S (2 * j))) by lia.
  cbn [repeat app JS.bufferFromHex].
  change (JS.digitIn 16 48) with (Some 0). cbv iota beta.
  rewrite IH. reflexivity.
Qed.

Lemma bufferFromHex_bufferToHex (bs : list Z) :
  Forall isByte bs -> JS.bufferFromHex (JS.bufferToHex bs) = bs.
Proof.
  induction 1 as [|b bs Hb _ IH]; [reflexivity|].
  unfold isByte in Hb. cbn [JS.bufferToHex JS.bufferFromHex].
  assert (0 <= b / 16 < 16).
  { split; [apply Z.div_pos; lia|apply Z.div_lt_upper_bound; lia]. }
  pose proof (Z.mod_pos_bound b 16 ltac:(lia)).
  rewrite !digitIn_hexChar by assumption.
  rewrite IH. f_equal. pose proof (Z.div_mod b 16). lia.
Qed.

Lemma len_bufferToHex (bs : list Z) :
  len (JS.bufferToHex bs) = 2 * len bs.
Proof.
  unfold len. induction bs as [|b bs IH]; [reflexivity|].
  cbn [JS.bufferToHex length]. lia.
Qed.

Lemma bufferToUtf8_zeros (j : nat) (bs : list Z) :
  JS.bufferToUtf8 (repeat 0 j ++ bs) = repeat 0 j ++ JS.bufferToUtf8 bs.
Proof.
  induction j as [|j IH]; [reflexivity|].
  cbn [repeat app].
  change (JS.bufferToUtf8 (0 :: repeat 0 j ++ bs))
    with (0 :: JS.bufferToUtf8 (repeat 0 j ++ bs)).
  rewrite IH. reflexivity.
Qed.

Lemma stripNul_zeros (j : nat) (s : jsstring) :
  JS.stripNul (repeat 0 j ++ s) = JS.stripNul s.
Proof. induction j as [|j IH]; [reflexivity|exact IH]. Qed.

Lemma stripNul_id (s : jsstring) :
  existsb (Z.eqb 0) s = false -> JS.stripNul s = s.
Proof.
  unfold JS.stripNul. induction s as [|c s IH]; [reflexivity|].
  cbn [existsb filter]. intros H. apply orb_false_iff in H.
  destruct H as [Hc Hs]. rewrite Z.eqb_sym in Hc. rewrite Hc.
  cbn [negb]. rewrite (IH Hs). reflexivity.
Qed.

(** Decides the range test at the head of the decoder's conditional. *)
Ltac bounds :=
  repeat match goal with
    | |- context [if ?a =? ?b then _ else _] => destruct (Z.eqb_spec a b)
    end;
  lia.

Ltac holds :=
  first
    [ apply Z.ltb_lt; lia
    | unfold JS.inRange; apply andb_true_iff; split; apply Z.leb_le;
      bounds ].

Ltac fails :=
  first
    [ apply Z.ltb_ge; lia
    | unfold JS.inRange; apply andb_false_iff;
      first [ left; apply Z.leb_gt; bounds
            | right; apply Z.leb_gt; bounds ] ].

Ltac range :=
  match goal with
  | |- (if ?c then _ else _) = _ =>
      first [ replace c with true by (symmetry; holds)
            | replace c with false by (symmetry; fails) ];
      cbv iota
  end.

Lemma bufferToUtf8_cons (b0 : Z) (r0 : list Z) :
  JS.bufferToUtf8 (b0 :: r0) = JS.utf8Step JS.bufferToUtf8 b0 r0.
Proof. reflexivity. Qed.

(** The bytes of a scalar value decode to its code units. *)
Lemma decode_scalar_1 (c : Z) (bs : list Z) :
  0 <= c < 128 ->
  JS.bufferToUtf8 (JS.utf8OfCodePoint c ++ bs) = c :: JS.bufferToUtf8 bs.
Proof.
  intros Hc. unfold JS.utf8OfCodePoint.
  destruct (Z.ltb_spec c 128); [|lia].
  cbn [app]. rewrite bufferToUtf8_cons. unfold JS.utf8Step.
  range. reflexivity.
Qed.

Lemma decode_scalar_2 (c : Z) (bs : list Z) :
  128 <= c < 2048 ->
  JS.bufferToUtf8 (JS.utf8OfCodePoint c ++ bs) = c :: JS.bufferToUtf8 bs.
Proof.
  intros Hc. unfold JS.utf8OfCodePoint.
  destruct (Z.ltb_spec c 128); [lia|].
  destruct (Z.ltb_spec c 2048); [|lia].
  pose proof (Z.div_mod c 64 ltac:(lia)) as Hdm.
  pose proof (Z.mod_pos_bound c 64 ltac:(lia)) as Hr.
  remember (c / 64) as q eqn:Hq. remember (c mod 64) as r eqn:Hr'.
  cbn [app]. rewrite bufferToUtf8_cons. unfold JS.utf8Step.
  do 3 range. f_equal. lia.
Qed.

Lemma decode_scalar_3 (c : Z) (bs : list Z) :
  2048 <= c < 65536 -> c < 55296 \/ 57343 < c ->
  JS.bufferToUtf8 (JS.utf8OfCodePoint c ++ bs) = c :: JS.bufferToUtf8 bs.
Proof.
  intros Hc Hs. unfold JS.utf8OfCodePoint.
  destruct (Z.ltb_spec c 128); [lia|].
  destruct (Z.ltb_spec c 2048); [lia|].
  destruct (Z.ltb_spec c 65536); [|lia].
  replace (c / 4096) with (c / 64 / 64)
    by (rewrite Z.div_div by lia; reflexivity).
  pose proof (Z.div_mod c 64 ltac:(lia)) as Hdm.
  pose proof (Z.mod_pos_bound c 64 ltac:(lia)) as Hr.
  remember (c / 64) as q eqn:Hq. remember (c mod 64) as r eqn:Hr'.
  pose proof (Z.div_mod q 64 ltac:(lia)) as Hdm1.
  pose proof (Z.mod_pos_bound q 64 ltac:(lia)) as Hr1.
  remember (q / 64) as q1 eqn:Hq1. remember (q mod 64) as r1 eqn:Hr1'.
  cbn [app]. rewrite bufferToUtf8_cons. unfold JS.utf8Step.
  do 5 range. f_equal. lia.
Qed.

Lemma decode_scalar_4 (cp : Z) (bs : list Z) :
  65536 <= cp < 1114112 ->
  JS.bufferToUtf8 (JS.utf8OfCodePoint cp ++ bs)
  = JS.unitsOfCodePoint cp ++ JS.bufferToUtf8 bs.
Proof.
  intros Hc. unfold JS.utf8OfCodePoint.
  destruct (Z.ltb_spec cp 128); [lia|].
  destruct (Z.ltb_spec cp 2048); [lia|].
  destruct (Z.ltb_spec cp 65536); [lia|].
  replace (cp / 262144) with (cp / 64 / 64 / 64)
    by (rewrite !Z.div_div by lia; reflexivity).
  replace (cp / 4096) with (cp / 64 / 64)
    by (rewrite Z.div_div by lia; reflexivity).
  pose proof (Z.div_mod cp 64 ltac:(lia)) as Hdm.
  pose proof (Z.mod_pos_bound cp 64 ltac:(lia)) as Hr.
  remember (cp / 64) as q eqn:Hq. remember (cp mod 64) as r eqn:Hr'.
  pose proof (Z.div_mod q 64 ltac:(lia)) as Hdm1.
  pose proof (Z.mod_pos_bound q 64 ltac:(lia)) as Hr1.
  remember (q / 64) as q1 eqn:Hq1. remember (q mod 64) as r1 eqn:Hr1'.
  pose proof (Z.div_mod q1 64 ltac:(lia)) as Hdm2.
  pose proof (Z.mod_pos_bound q1 64 ltac:(lia)) as Hr2.
  remember (q1 / 64) as q2 eqn:Hq2. remember (q1 mod 64) as r2 eqn:Hr2'.
  cbn [app]. rewrite bufferToUtf8_cons. unfold JS.utf8Step.
  do 7 range. f_equal. f_equal. lia.
Qed.

End Buffers.

(** ** Well-formed strings through UTF-8 *)
Section Utf8RoundTrip.

Lemma surrogate_bounds (c : Z) :
  (JS.isHighSurrogate c = true <-> 55296 <= c <= 56319)
  /\ (JS.isLowSurrogate c = true <-> 56320 <= c <= 57343).
Proof.
  unfold JS.isHighSurrogate, JS.isLowSurrogate.
  rewrite !andb_true_iff, !Z.leb_le. tauto.
Qed.

Lemma decode_scalar (c : Z) (bs : list Z) :
  0 <= c < 65536 -> c < 55296 \/ 57343 < c ->
  JS.bufferToUtf8 (JS.utf8OfCodePoint c ++ bs) = c :: JS.bufferToUtf8 bs.
Proof.
  intros Hc Hs.
  destruct (Z_lt_le_dec c 128); [apply decode_scalar_1; lia|].
  destruct (Z_lt_le_dec c 2048); [apply decode_scalar_2; lia|].
  apply decode_scalar_3; lia.
Qed.

Lemma decode_pair (c d : Z) (bs : list Z) :
  55296 <= c <= 56319 -> 56320 <= d <= 57343 ->
  JS.bufferToUtf8
    (JS.utf8OfCodePoint (65536 + (c - 55296) * 1024 + (d - 56320)) ++ bs)
  = c :: d :: JS.bufferToUtf8 bs.
Proof.
  intros Hc Hd. rewrite decode_scalar_4 by lia.
  unfold JS.unitsOfCodePoint.
  destruct (Z.ltb_spec (65536 + (c - 55296) * 1024 + (d - 56320)) 65536);
    [lia|].
  replace (65536 + (c - 55296) * 1024 + (d - 56320) - 65536)
    with ((d - 56320) + (c - 55296) * 1024) by lia.
  rewrite Z.div_add, Z.mod_add by lia.
  rewrite Z.div_small, Z.mod_small by lia.
  cbn [app]. f_equal; [lia|]. f_equal. lia.
Qed.

(** Decoding the UTF-8 bytes of a well-formed string gives it back. *)
Lemma utf8_round_trip_bounded (n : nat) :
  forall s, (length s <= n)%nat -> JS.isWellFormed s = true ->
            JS.bufferToUtf8 (JS.bufferFromUtf8 s) = s.
Proof.
  induction n as [|n IH]; intros s Hn Hwf.
  - destruct s; [reflexivity|simpl in Hn; lia].
  - destruct s as [|c r]; [reflexivity|].
    cbn [JS.isWellFormed JS.bufferFromUtf8] in *.
    destruct (JS.isHighSurrogate c) eqn:Hh.
    + destruct r as [|d r']; [discriminate|].
      apply andb_true_iff in Hwf. destruct Hwf as [Hl Hwf].
      rewrite Hl. apply surrogate_bounds in Hh, Hl.
      rewrite decode_pair by assumption.
      rewrite IH; [reflexivity| |exact Hwf]. simpl in Hn. lia.
    + apply andb_true_iff in Hwf. destruct Hwf as [Hwf Hr].
      apply andb_true_iff in Hwf. destruct Hwf as [Hwf Hhi].
      apply andb_true_iff in Hwf. destruct Hwf as [Hlow Hlo].
      apply negb_true_iff in Hlow. rewrite Hlow.
      apply Z.leb_le in Hlo. apply Z.ltb_lt in Hhi.
      assert (Hs : c < 55296 \/ 57343 < c).
      { destruct (Z_lt_le_dec c 55296) as [?|H1]; [left; lia|].
        destruct (Z_lt_le_dec 57343 c) as [?|H2]; [right; lia|].
        destruct (Z_lt_le_dec c 56320) as [H3|H3].
        - assert (JS.isHighSurrogate c = true)
            by (apply surrogate_bounds; lia). congruence.
        - assert (JS.isLowSurrogate c = true)
            by (apply surrogate_bounds; lia). congruence. }
      rewrite decode_scalar by lia.
      rewrite IH; [reflexivity| |exact Hr]. simpl in Hn. lia.
Qed.

Lemma utf8_round_trip (s : jsstring) :
  JS.isWellFormed s = true -> JS.bufferToUtf8 (JS.bufferFromUtf8 s) = s.
Proof. apply (utf8_round_trip_bounded (length s)). lia. Qed.

Lemma utf8OfCodePoint_bytes (cp : Z) :
  0 <= cp < 1114112 -> Forall isByte (JS.utf8OfCodePoint cp).
Proof.
  intros Hc. unfold JS.utf8OfCodePoint, isByte.
  pose proof (Z.mod_pos_bound cp 64 ltac:(lia)).
  pose proof (Z.mod_pos_bound (cp / 64) 64 ltac:(lia)).
  pose proof (Z.mod_pos_bound (cp / 4096) 64 ltac:(lia)).
  destruct (Z.ltb_spec cp 128); [repeat constructor; lia|].
  destruct (Z.ltb_spec cp 2048).
  { assert (0 <= cp / 64 < 32)
      by (split; [apply Z.div_pos|apply Z.div_lt_upper_bound]; lia).
    repeat constructor; lia. }
  destruct (Z.ltb_spec cp 65536).
  { assert (0 <= cp / 4096 < 16)
      by (split; [apply Z.div_pos|apply Z.div_lt_upper_bound]; lia).
    repeat constructor; lia. }
  assert (0 <= cp / 262144 < 5)
    by (split; [apply Z.div_pos|apply Z.div_lt_upper_bound]; lia).
  repeat constructor; lia.
Qed.

(** The UTF-8 encoder writes bytes. *)
Lemma bufferFromUtf8_bytes_bounded (n : nat) :
  forall s, (length s <= n)%nat -> JS.isWellFormed s = true ->
            Forall isByte (JS.bufferFromUtf8 s).
Proof.
  induction n as [|n IH]; intros s Hn Hwf.
  - destruct s; [constructor|simpl in Hn; lia].
  - destruct s as [|c r]; [constructor|].
    cbn [JS.isWellFormed JS.bufferFromUtf8] in *.
    destruct (JS.isHighSurrogate c) eqn:Hh.
    + destruct r as [|d r']; [discriminate|].
      apply andb_true_iff in Hwf. destruct Hwf as [Hl Hwf].
      rewrite Hl. apply surrogate_bounds in Hh, Hl.
      apply Forall_app. split.
      * apply utf8OfCodePoint_bytes. lia.
      * apply IH; [simpl in Hn; lia|exact Hwf].
    + apply andb_true_iff in Hwf. destruct Hwf as [Hwf Hr].
      apply andb_true_iff in Hwf. destruct Hwf as [Hwf Hhi].
      apply andb_true_iff in Hwf. destruct Hwf as [Hlow Hlo].
      apply negb_true_iff in Hlow. rewrite Hlow.
      apply Z.leb_le in Hlo. apply Z.ltb_lt in Hhi.
      apply Forall_app. split.
      * apply utf8OfCodePoint_bytes. lia.
      * apply IH; [simpl in Hn; lia|exact Hr].
Qed.

Lemma bufferFromUtf8_bytes (s : jsstring) :
  JS.isWellFormed s = true -> Forall isByte (JS.bufferFromUtf8 s).
Proof. apply (bufferFromUtf8_bytes_bounded (length s)). lia. Qed.

End Utf8RoundTrip.

(** ** Big integers through their radix-16 text *)
Section BigIntRoundTrip.

Lemma hexChar_notWhiteSpace (d : Z) :
  0 <= d < 16 -> notWhiteSpace (JS.hexChar d).
Proof.
  revert d. apply digit_cases. cbn [seq map].
  repeat (constructor; [reflexivity|]). constructor.
Qed.

Lemma hexOf_notWhiteSpace (fuel : nat) :
  forall n, 0 <= n -> Forall notWhiteSpace (hexOf fuel n).
Proof.
  induction fuel as [|f IH]; intros n Hn; cbn [hexOf]; [constructor|].
  destruct (Z.ltb_spec n 16).
  - repeat constructor. apply hexChar_notWhiteSpace. lia.
  - apply Forall_app. split.
    + apply IH. apply Z.div_pos; lia.
    + repeat constructor. apply hexChar_notWhiteSpace.
      apply Z.mod_pos_bound. lia.
Qed.

Lemma trimStart_id (s : jsstring) :
  Forall notWhiteSpace s -> JS.trimStart s = s.
Proof.
  intros H. destruct H as [|c r Hc _]; [reflexivity|].
  cbn [JS.trimStart]. rewrite Hc. reflexivity.
Qed.

Lemma trim_id (s : jsstring) : Forall notWhiteSpace s -> JS.trim s = s.
Proof.
  intros H. unfold JS.trim. rewrite (trimStart_id s H).
  rewrite trimStart_id by (apply Forall_rev, H).
  apply rev_involutive.
Qed.

Lemma allDigits_zeros (k : nat) (t : jsstring) :
  JS.allDigits 16 (repeat 48 k ++ t) 0 = JS.allDigits 16 t 0.
Proof. induction k as [|k IH]; [reflexivity|exact IH]. Qed.

Lemma parseDigits_nonempty (radix : Z) (s : jsstring) :
  s <> [] -> JS.parseDigits radix s = JS.allDigits radix s 0.
Proof. destruct s; [contradiction|reflexivity]. Qed.

(** A padded word of radix-16 digits reads back as the number. *)
Lemma decodeUInt256_padded (z : Z) :
  0 <= z ->
  ABIUtils.decodeUInt256 (JS.padStart (JS.natToString16 z) 64 48)
  = Ret (PBigInt z).
Proof.
  intros Hz. unfold ABIUtils.decodeUInt256, JS.stringToBigInt, JS.padStart.
  set (k := Z.to_nat (64 - len (JS.natToString16 z))).
  change (lit "0x" ++ repeat 48 k ++ JS.natToString16 z)
    with (48 :: 120 :: repeat 48 k ++ JS.natToString16 z).
  rewrite trim_id.
  - cbv iota. rewrite parseDigits_nonempty.
    + rewrite allDigits_zeros, allDigits_natToString16 by assumption.
      reflexivity.
    + pose proof (natToString16_nonempty z).
      destruct (repeat 48 k); [assumption|discriminate].
  - constructor; [reflexivity|]. constructor; [reflexivity|].
    apply Forall_app. split.
    + apply Forall_forall. intros c Hc. apply repeat_spec in Hc.
      subst c. reflexivity.
    + rewrite natToString16_hexOf. apply hexOf_notWhiteSpace, Hz.
Qed.

End BigIntRoundTrip.

(** ** The ABI round trip *)
Section ABIRoundTrip.

Lemma decodeString_padded (s : jsstring) :
  JS.isWellFormed s = true ->
  existsb (Z.eqb 0) s = false ->
  ABIUtils.decodeString
    (JS.padStart (JS.bufferToHex (JS.bufferFromUtf8 s)) 64 48)
  = Ret (PString s).
Proof.
  intros Hwf Hnul. unfold ABIUtils.decodeString, JS.padStart.
  rewrite len_bufferToHex.
  replace (Z.to_nat (64 - 2 * len (JS.bufferFromUtf8 s)))
    with (2 * Z.to_nat (32 - len (JS.bufferFromUtf8 s)))%nat by lia.
  rewrite bufferFromHex_zeros.
  rewrite bufferFromHex_bufferToHex by (apply bufferFromUtf8_bytes, Hwf).
  rewrite bufferToUtf8_zeros, utf8_round_trip by assumption.
  rewrite stripNul_zeros, stripNul_id by assumption.
  reflexivity.
Qed.

Lemma decodeAddress_padded (s : jsstring) :
  HexUtils.test s = true -> len s = 42 ->
  ABIUtils.decodeAddress (JS.padStart (JS.sliceFrom s 2) 64 48)
  = Ret (PString s).
Proof.
  intros Ht Hl. destruct (test_prefix s Ht) as (d & r & Hs & _).
  unfold ABIUtils.decodeAddress, JS.padStart.
  rewrite len_sliceFrom by lia. rewrite Hl. subst s.
  pose proof (sliceFrom_app (lit "0x") (d :: r)) as H1.
  change (len (lit "0x")) with 2 in H1. rewrite H1.
  change (Z.to_nat (64 - (42 - 2))) with 24%nat.
  pose proof (sliceFrom_app (repeat 48 24) (d :: r)) as H2.
  change (len (repeat 48 24)) with 24 in H2. rewrite H2.
  reflexivity.
Qed.

(** The padded [bytes] word of [0x1234] decodes to itself, not to
    [0x1234]; the one-character string U+0000 decodes to the empty
    string; an unpaired surrogate decodes to U+FFFD. *)
Lemma abi_round_trip_counterexample :
  (ABIUtils.encodeParameter (lit "bytes") (PString (lit "0x1234"))
   = Ret (zeros 58 ++ lit "0x1234")
   /\ ABIUtils.decodeParameter (lit "bytes") (zeros 58 ++ lit "0x1234")
      = Ret (PString (zeros 58 ++ lit "0x1234"))
   /\ PString (zeros 58 ++ lit "0x1234") <> PString (lit "0x1234"))
  /\ (ABIUtils.encodeParameter (lit "string") (PString [0])
      = Ret (zeros 64)
      /\ ABIUtils.decodeParameter (lit "string") (zeros 64)
         = Ret (PString [])
      /\ PString [] <> PString [0])
  /\ (ABIUtils.encodeParameter (lit "string") (PString [55296])
      = Ret (zeros 58 ++ lit "efbfbd")
      /\ ABIUtils.decodeParameter (lit "string") (zeros 58 ++ lit "efbfbd")
         = Ret (PString [65533])
      /\ PString [65533] <> PString [55296]).
Proof. repeat split; discriminate. Qed.

(** Whatever [uint256] accepts decodes to the big integer of its value. *)
Lemma abi_round_trip_uint256 (value : prim) (word : jsstring) :
  ABIUtils.encodeParameter (lit "uint256") value = Ret word ->
  exists z, JS.BigInt value = Ret z
            /\ 0 <= z
            /\ ABIUtils.decodeParameter (lit "uint256") word
               = Ret (PBigInt z).
Proof.
  unfold ABIUtils.encodeParameter, ABIUtils.decodeParameter. dispatch.
  unfold ABIUtils.encodeUInt256, JS.bigIntToString16.
  destruct (JS.BigInt value) as [z|e]; cbn [bind]; [|discriminate].
  destruct (Z.ltb_spec z 0) as [?|Hz]; [discriminate|].
  intros H. inversion H as [Hw]. exists z.
  repeat split; [exact Hz|]. apply decodeUInt256_padded, Hz.
Qed.

(** C4, amended: [decodeParameter] gives back the value
    [encodeParameter] encoded when the value is a big integer as
    [uint256], a boolean as [bool], a well-formed string without the
    character U+0000 as [string], any accepted [address] or [bytes32],
    or a [bytes] string of 64 characters or more. *)
Theorem abi_round_trip (type : jsstring) (value : prim) (word : jsstring) :
  ABIUtils.encodeParameter type value = Ret word ->
  roundTrips type value = true ->
  ABIUtils.decodeParameter type word = Ret value.
Proof.
  intros Henc Hrt. destruct value as [| |b|x|z|s]; try discriminate Hrt.
  - (* bool *)
    apply streq_eq in Hrt. subst type.
    unfold ABIUtils.encodeParameter in Henc.
    unfold ABIUtils.decodeParameter. revert Henc. dispatch.
    unfold ABIUtils.encodeBool. intros H. inversion H as [Hw].
    destruct b; reflexivity.
  - (* uint256 *)
    apply streq_eq in Hrt. subst type.
    unfold ABIUtils.encodeParameter in Henc.
    unfold ABIUtils.decodeParameter. revert Henc. dispatch.
    unfold ABIUtils.encodeUInt256, JS.bigIntToString16.
    cbn [JS.BigInt bind].
    destruct (Z.ltb_spec z 0) as [?|Hz]; [discriminate|].
    intros H. inversion H as [Hw]. apply decodeUInt256_padded, Hz.
  - (* strings *)
    cbn [roundTrips] in Hrt.
    apply orb_true_iff in Hrt. destruct Hrt as [Hrt|Hrt].
    apply orb_true_iff in Hrt. destruct Hrt as [Hrt|Hrt].
    apply orb_true_iff in Hrt. destruct Hrt as [Hrt|Hrt].
    + apply andb_true_iff in Hrt. destruct Hrt as [Hrt Hnul].
      apply andb_true_iff in Hrt. destruct Hrt as [Ht Hwf].
      apply negb_true_iff in Hnul.
      apply streq_eq in Ht. subst type.
      unfold ABIUtils.encodeParameter in Henc.
      unfold ABIUtils.decodeParameter. revert Henc. dispatch.
      unfold ABIUtils.encodeString. intros H. inversion H as [Hw].
      apply decodeString_padded; assumption.
    + apply streq_eq in Hrt. subst type.
      unfold ABIUtils.encodeParameter in Henc.
      unfold ABIUtils.decodeParameter. revert Henc. dispatch.
      unfold ABIUtils.encodeAddress. cbn [HexUtils.isHex].
      destruct (HexUtils.test s) eqn:Ht; cbn [negb orb]; [|discriminate].
      destruct (Z.eqb_spec (len s) 42) as [Hl|?]; cbn [negb];
        [|discriminate].
      intros H. inversion H as [Hw].
      apply decodeAddress_padded; assumption.
    + apply streq_eq in Hrt. subst type.
      unfold ABIUtils.encodeParameter in Henc.
      unfold ABIUtils.decodeParameter. revert Henc. dispatch.
      unfold ABIUtils.encodeBytes32, ABIUtils.decodeBytes32.
      destruct (negb (len s =? 64)); [discriminate|].
      destruct (negb (HexUtils.isHex (VPrim (PString s))));
        [discriminate|].
      intros H. inversion H as [Hw]. reflexivity.
    + apply andb_true_iff in Hrt. destruct Hrt as [Ht Hl].
      apply Z.leb_le in Hl. apply streq_eq in Ht. subst type.
      unfold ABIUtils.encodeParameter in Henc.
      unfold ABIUtils.decodeParameter. revert Henc. dispatch.
      unfold ABIUtils.encodeBytes, ABIUtils.decodeBytes.
      destruct (negb (HexUtils.isHex (VPrim (PString s))));
        [discriminate|].
      rewrite padStart_long by assumption.
      intros H. inversion H as [Hw]. reflexivity.
Qed.

(** The string [Hi] comes back from its word. *)
Lemma abi_round_trip_witness :
  ABIUtils.decodeParameter (lit "string") (zeros 60 ++ lit "4869")
  = Ret (PString (lit "Hi")).
Proof.
  apply (abi_round_trip (lit "string") (PString (lit "Hi"))
           (zeros 60 ++ lit "4869")); reflexivity.
Defined.

End ABIRoundTrip.

(** ** The conversions of src/utils/hex.js *)
Section HexConversions.

Lemma isHexDigit_hexChar (d : Z) :
  0 <= d < 16 -> JS.isHexDigit (JS.hexChar d) = true.
Proof.
  intros Hd. unfold JS.isHexDigit. rewrite digitIn_hexChar by assumption.
  reflexivity.
Qed.

Lemma hexOf_digits (fuel : nat) :
  forall n, 0 <= n -> forallb JS.isHexDigit (hexOf fuel n) = true.
Proof.
  induction fuel as [|f IH]; intros n Hn; cbn [hexOf]; [reflexivity|].
  destruct (Z.ltb_spec n 16).
  - cbn [forallb]. rewrite isHexDigit_hexChar by lia. reflexivity.
  - rewrite forallb_app, IH by (apply Z.div_pos; lia).
    cbn [forallb]. rewrite isHexDigit_hexChar
      by (apply Z.mod_pos_bound; lia).
    reflexivity.
Qed.

Lemma natToString16_digits (n : Z) :
  0 <= n -> forallb JS.isHexDigit (JS.natToString16 n) = true.
Proof. intros Hn. rewrite natToString16_hexOf. apply hexOf_digits, Hn. Qed.

Lemma bufferToHex_digits (bs : list Z) :
  Forall isByte bs -> forallb JS.isHexDigit (JS.bufferToHex bs) = true.
Proof.
  induction 1 as [|b bs Hb _ IH]; [reflexivity|].
  unfold isByte in Hb. cbn [JS.bufferToHex forallb].
  rewrite !isHexDigit_hexChar, IH; [reflexivity| |].
  - apply Z.mod_pos_bound. lia.
  - split; [apply Z.div_pos; lia|apply Z.div_lt_upper_bound; lia].
Qed.

(** Text of hex digits after [0x] passes the pattern of [isHex]. *)
Lemma test_intro (t : jsstring) :
  t <> [] -> forallb JS.isHexDigit t = true ->
  HexUtils.test (lit "0x" ++ t) = true.
Proof.
  intros Hne Hall. destruct t as [|d r]; [contradiction|].
  cbn [lit app]. unfold HexUtils.test. exact Hall.
Qed.

Lemma isHexDigit_notWhiteSpace (c : Z) :
  JS.isHexDigit c = true -> notWhiteSpace c.
Proof.
  unfold JS.isHexDigit, notWhiteSpace. intros H.
  destruct (JS.digitIn 16 c) as [d|] eqn:Hd; [|discriminate].
  unfold JS.digitIn, JS.digitVal in Hd. unfold JS.isWhiteSpace.
  destruct ((48 <=? c) && (c <=? 57)) eqn:H1.
  { apply andb_true_iff in H1. destruct H1 as [Ha Hb].
    apply Z.leb_le in Ha, Hb.
    repeat match goal with
      | |- context [?a <=? ?b] => destruct (Z.leb_spec a b); try lia
      | |- context [?a =? ?b] => destruct (Z.eqb_spec a b); try lia
      end; reflexivity. }
  destruct ((97 <=? c) && (c <=? 122)) eqn:H2.
  { apply andb_true_iff in H2. destruct H2 as [Ha Hb].
    apply Z.leb_le in Ha, Hb.
    destruct (Z.ltb_spec (c - 87) 16); [|discriminate].
    repeat match goal with
      | |- context [?a <=? ?b] => destruct (Z.leb_spec a b); try lia
      | |- context [?a =? ?b] => destruct (Z.eqb_spec a b); try lia
      end; reflexivity. }
  destruct ((65 <=? c) && (c <=? 90)) eqn:H3; [|discriminate].
  apply andb_true_iff in H3. destruct H3 as [Ha Hb].
  apply Z.leb_le in Ha, Hb.
  destruct (Z.ltb_spec (c - 55) 16); [|discriminate].
  repeat match goal with
    | |- context [?a <=? ?b] => destruct (Z.leb_spec a b); try lia
    | |- context [?a =? ?b] => destruct (Z.eqb_spec a b); try lia
    end; reflexivity.
Qed.

Lemma digits_notWhiteSpace (t : jsstring) :
  forallb JS.isHexDigit t = true -> Forall notWhiteSpace t.
Proof.
  intros H. apply Forall_forall. intros c Hc.
  rewrite forallb_forall in H. apply isHexDigit_notWhiteSpace, H, Hc.
Qed.

(** [BigInt] reads prefixed radix-16 digits as [allDigits] does. *)
Lemma stringToBigInt_prefixed (t : jsstring) :
  t <> [] -> forallb JS.isHexDigit t = true ->
  JS.stringToBigInt (lit "0x" ++ t) = JS.allDigits 16 t 0.
Proof.
  intros Hne Hall. unfold JS.stringToBigInt.
  change (lit "0x" ++ t) with (48 :: 120 :: t).
  rewrite trim_id.
  - cbv iota. apply parseDigits_nonempty, Hne.
  - constructor; [reflexivity|]. constructor; [reflexivity|].
    apply digits_notWhiteSpace, Hall.
Qed.

Lemma hexToBigInt_digits (n : Z) :
  0 <= n ->
  Hex.hexToBigInt (lit "0x" ++ JS.natToString16 n) = Ret n.
Proof.
  intros Hn. unfold Hex.hexToBigInt.
  rewrite test_intro
    by (try apply natToString16_nonempty; apply natToString16_digits, Hn).
  cbn [negb JS.BigInt].
  rewrite stringToBigInt_prefixed
    by (try apply natToString16_nonempty; apply natToString16_digits, Hn).
  rewrite allDigits_natToString16 by assumption. reflexivity.
Qed.

Lemma test_minus (t : jsstring) : HexUtils.test (lit "0x" ++ 45 :: t) = false.
Proof. reflexivity. Qed.



(** X2: what [bigIntToHex] writes for a value that converts to a
    non-negative big integer, [hexToBigInt] reads back as that integer;
    for a negative one it writes text [hexToBigInt] rejects.
    [BigIntUtils.toHex] and [BigIntUtils.fromHex] are the same code. *)
Theorem hex_bigIntToHex :
  (forall value z,
      Hex.toBigInt value = Ret z -> 0 <= z ->
      exists text,
        Hex.bigIntToHex value = Ret text
        /\ BigIntUtils.toHex value = Ret text
        /\ Hex.hexToBigInt text = Ret z
        /\ BigIntUtils.fromHex text = Ret z)
  /\ (forall value z,
        Hex.toBigInt value = Ret z -> z < 0 ->
        exists text,
          Hex.bigIntToHex value = Ret text
          /\ Hex.hexToBigInt text = Throw Hex.invalidHex).
Proof.
  split; intros value z Hv Hz.
  - exists (lit "0x" ++ JS.natToString16 z).
    assert (Hb : Hex.bigIntToHex value
                 = Ret (lit "0x" ++ JS.natToString16 z)).
    { unfold Hex.bigIntToHex. rewrite Hv. cbn [bind].
      unfold JS.bigIntToString16.
      destruct (Z.ltb_spec z 0); [lia|reflexivity]. }
    repeat split; try exact Hb; apply hexToBigInt_digits, Hz.
  - eexists. unfold Hex.bigIntToHex. rewrite Hv. cbn [bind].
    split; [reflexivity|]. unfold Hex.hexToBigInt, JS.bigIntToString16.
    destruct (Z.ltb_spec z 0); [|lia].
    rewrite test_minus. reflexivity.
Qed.

Lemma hex_bigIntToHex_witness :
  exists text,
    Hex.bigIntToHex (PString (lit "255")) = Ret text
    /\ BigIntUtils.toHex (PString (lit "255")) = Ret text
    /\ Hex.hexToBigInt text = Ret 255
    /\ BigIntUtils.fromHex text = Ret 255.
Proof.
  apply (proj1 hex_bigIntToHex (PString (lit "255")) 255);
    [reflexivity|lia].
Defined.

End HexConversions.

(** ** Strings through [stringToHex] and [hexToString] *)
Section HexStrings.

Lemma sliceFrom_last2 (p : jsstring) (a b : Z) :
  JS.sliceFrom (p ++ [a; b]) (-2) = [a; b].
Proof.
  unfold JS.sliceFrom, JS.slice, JS.clampIndex. rewrite len_app.
  change (len [a; b]) with 2. pose proof (len_nonneg p) as Hp.
  destruct (Z.ltb_spec (-2) 0) as [_|?]; [|lia].
  destruct (Z.ltb_spec (len p + 2) 0) as [?|_]; [lia|].
  rewrite Z.max_l, Z.min_id by lia.
  replace (Z.to_nat (len p + 2 + -2)) with (length p) by (unfold len; lia).
  rewrite skipn_app, skipn_all, Nat.sub_diag. cbn [skipn app].
  apply firstn_all2. simpl. lia.
Qed.

(** From 16 on, the digits of a number end in its two low digits. *)
Lemma hexOf_last2 (fuel : nat) (c : Z) :
  16 <= c < 16 ^ Z.of_nat fuel ->
  exists p, hexOf fuel c
            = p ++ [JS.hexChar ((c / 16) mod 16); JS.hexChar (c mod 16)].
Proof.
  intros Hc. destruct fuel as [|f]; [simpl in Hc; lia|].
  cbn [hexOf]. destruct (Z.ltb_spec c 16); [lia|].
  assert (Hq : 1 <= c / 16) by (apply Z.div_le_lower_bound; lia).
  destruct f as [|f].
  { change (16 ^ Z.of_nat 1) with 16 in Hc. lia. }
  cbn [hexOf]. destruct (Z.ltb_spec (c / 16) 16).
  - exists []. rewrite (Z.mod_small (c / 16)) by lia. reflexivity.
  - exists (hexOf f (c / 16 / 16)). rewrite <- app_assoc. reflexivity.
Qed.

Lemma lowByte_digits (c : Z) :
  lowByte c / 16 = (c / 16) mod 16 /\ lowByte c mod 16 = c mod 16.
Proof.
  unfold lowByte. change 256 with (16 * 16).
  rewrite Z.rem_mul_r by lia.
  pose proof (Z.mod_pos_bound c 16 ltac:(lia)).
  pose proof (Z.mod_pos_bound (c / 16) 16 ltac:(lia)).
  split.
  - symmetry. apply (Z.div_unique _ 16 _ (c mod 16)); lia.
  - symmetry. apply (Z.mod_unique _ 16 ((c / 16) mod 16)); lia.
Qed.

(** One turn of [stringToHex] writes the low byte of the code unit. *)
Lemma stringToHex_unit (c : Z) :
  0 <= c ->
  JS.sliceFrom (lit "0" ++ JS.toString16 (NInt c)) (-2)
  = JS.bufferToHex [lowByte c].
Proof.
  intros Hc. cbn [JS.bufferToHex].
  destruct (lowByte_digits c) as [-> ->].
  unfold JS.toString16, JS.bigIntToString16.
  destruct (Z.ltb_spec c 0); [lia|].
  rewrite natToString16_hexOf.
  destruct (Z_lt_le_dec c 16) as [Hs|Hs].
  - cbn [hexOf]. destruct (Z.ltb_spec c 16); [|lia].
    rewrite (Z.div_small c 16), (Z.mod_small c 16) by lia.
    exact (sliceFrom_last2 [] 48 (JS.hexChar c)).
  - destruct (hexOf_last2 (S (Z.to_nat (Z.log2 c))) c) as [p Hp].
    { split; [assumption|apply fuel_enough; lia]. }
    rewrite Hp. apply (sliceFrom_last2 (lit "0" ++ p)).
Qed.

Lemma stringToHexLoop_spec (str : jsstring) :
  Forall (fun c => 0 <= c) str ->
  forall hex, Hex.stringToHexLoop str hex
              = hex ++ JS.bufferToHex (map lowByte str).
Proof.
  induction 1 as [|c str Hc _ IH]; intros hex; cbn [Hex.stringToHexLoop map].
  - symmetry. apply app_nil_r.
  - rewrite IH, stringToHex_unit by assumption.
    cbn [JS.bufferToHex]. rewrite <- app_assoc. reflexivity.
Qed.

(** X3: [stringToHex] writes two digits a code unit, those of its low
    byte: the result is [0x] and the hex text of the low bytes, has twice
    the characters of the string and two more, and a character from
    U+0100 on is written as the character of its low byte is. *)
Theorem hex_stringToHex_low_bytes (str : jsstring) :
  Forall isUnit str ->
  Hex.stringToHex str = lit "0x" ++ JS.bufferToHex (map lowByte str)
  /\ len (Hex.stringToHex str) = 2 + 2 * len str
  /\ Hex.stringToHex str = Hex.stringToHex (map lowByte str).
Proof.
  intros Hu.
  assert (Hn : Forall (fun c => 0 <= c) str).
  { eapply Forall_impl; [|exact Hu]. unfold isUnit. intros c Hc. lia. }
  assert (Hn' : Forall (fun c => 0 <= c) (map lowByte str)).
  { apply Forall_forall. intros b Hb. apply in_map_iff in Hb.
    destruct Hb as (c & <- & _). unfold lowByte.
    apply Z.mod_pos_bound. lia. }
  unfold Hex.stringToHex.
  rewrite !stringToHexLoop_spec by assumption. cbn [app].
  split; [reflexivity|]. split.
  - change (len (48 :: 120 :: JS.bufferToHex (map lowByte str)))
      with (len (lit "0x" ++ JS.bufferToHex (map lowByte str))).
    rewrite len_app, len_bufferToHex. unfold len. rewrite length_map.
    reflexivity.
  - rewrite map_map.
    rewrite (map_ext (fun x => lowByte (lowByte x)) lowByte);
      [reflexivity|].
    intros c. unfold lowByte. rewrite Z.mod_mod by lia. reflexivity.
Qed.

(** The euro sign is written as the character U+00AC is. *)
Lemma hex_stringToHex_low_bytes_witness :
  Hex.stringToHex [8364] = lit "0x" ++ JS.bufferToHex (map lowByte [8364])
  /\ len (Hex.stringToHex [8364]) = 2 + 2 * len [8364]
  /\ Hex.stringToHex [8364] = Hex.stringToHex (map lowByte [8364]).
Proof.
  apply (hex_stringToHex_low_bytes [8364]).
  repeat constructor; unfold isUnit; lia.
Defined.

Lemma parseInt16_hexPair (d1 d2 : Z) :
  0 <= d1 < 16 -> 0 <= d2 < 16 ->
  JS.parseInt16 [JS.hexChar d1; JS.hexChar d2] = Some (16 * d1 + d2).
Proof.
  intros H1 H2. revert d1 H1 d2 H2.
  apply (digit_cases (fun d1 => forall d2, 0 <= d2 < 16 ->
           JS.parseInt16 [JS.hexChar d1; JS.hexChar d2]
           = Some (16 * d1 + d2))).
  cbn [seq map].
  repeat (constructor;
          [apply digit_cases; cbn [seq map];
           repeat (constructor; [reflexivity|]); constructor|]).
  constructor.
Qed.

Lemma hexToStringLoop_bufferToHex (bs : list Z) :
  Forall isByte bs ->
  forall str, Hex.hexToStringLoop (JS.bufferToHex bs) str = str ++ bs.
Proof.
  induction 1 as [|b bs Hb _ IH]; intros str.
  - symmetry. apply app_nil_r.
  - unfold isByte in Hb. cbn [JS.bufferToHex Hex.hexToStringLoop].
    rewrite parseInt16_hexPair.
    + rewrite IH. cbn [Text.fromCharCode].
      replace (16 * (b / 16) + b mod 16) with b
        by (pose proof (Z.div_mod b 16); lia).
      rewrite Z.mod_small by lia. rewrite <- app_assoc. reflexivity.
    + split; [apply Z.div_pos; lia|apply Z.div_lt_upper_bound; lia].
    + apply Z.mod_pos_bound. lia.
Qed.

Lemma map_lowByte_id (str : jsstring) :
  Forall isLatin1 str -> map lowByte str = str.
Proof.
  induction 1 as [|c str Hc _ IH]; [reflexivity|].
  cbn [map]. rewrite IH. unfold lowByte, isLatin1 in *.
  rewrite Z.mod_small by lia. reflexivity.
Qed.

Lemma bufferToHex_nonempty (bs : list Z) :
  bs <> [] -> JS.bufferToHex bs <> [].
Proof. destruct bs; [contradiction|discriminate]. Qed.

(** What [hexToString] makes of what [stringToHex] wrote: the characters
    of the low bytes. *)
Lemma hexToString_stringToHex (str : jsstring) :
  str <> [] -> Forall isUnit str ->
  Hex.hexToString (Hex.stringToHex str) = Ret (map lowByte str).
Proof.
  intros Hne Hu.
  assert (Hn : Forall (fun c => 0 <= c) str).
  { eapply Forall_impl; [|exact Hu]. unfold isUnit. intros c Hc. lia. }
  assert (Hb : Forall isByte (map lowByte str)).
  { apply Forall_forall. intros b Hin. apply in_map_iff in Hin.
    destruct Hin as (c & <- & _). unfold isByte, lowByte.
    pose proof (Z.mod_pos_bound c 256 ltac:(lia)). lia. }
  assert (Hm : map lowByte str <> []).
  { destruct str; [contradiction|discriminate]. }
  unfold Hex.stringToHex. rewrite stringToHexLoop_spec by assumption.
  cbn [app]. unfold Hex.hexToString.
  change (48 :: 120 :: JS.bufferToHex (map lowByte str))
    with (lit "0x" ++ JS.bufferToHex (map lowByte str)).
  rewrite test_intro
    by (try apply bufferToHex_nonempty; try apply bufferToHex_digits;
        assumption).
  cbn [negb].
  change (skipn 2 (lit "0x" ++ JS.bufferToHex (map lowByte str)))
    with (JS.bufferToHex (map lowByte str)).
  rewrite hexToStringLoop_bufferToHex by assumption. reflexivity.
Qed.

(** X4: a string that is not empty and holds only characters up to
    U+00FF comes back from [hexToString] as [stringToHex] took it. *)
Theorem hex_string_round_trip (str : jsstring) :
  str <> [] -> Forall isLatin1 str ->
  Hex.hexToString (Hex.stringToHex str) = Ret str.
Proof.
  intros Hne Hl.
  assert (Hu : Forall isUnit str).
  { eapply Forall_impl; [|exact Hl]. unfold isLatin1, isUnit. intros c Hc.
    lia. }
  rewrite hexToString_stringToHex, map_lowByte_id by assumption.
  reflexivity.
Qed.

Lemma hex_string_round_trip_witness :
  Hex.hexToString (Hex.stringToHex (lit "Hi")) = Ret (lit "Hi").
Proof.
  apply (hex_string_round_trip (lit "Hi")).
  - discriminate.
  - repeat constructor; unfold isLatin1; cbn; lia.
Defined.

End HexStrings.

(** ** Padding and stripping hex text *)
Section HexPadding.

Lemma intLt_ceiling (n : Z) (x : number) :
  Text.intLt n x = (n <? ceiling x).
Proof.
  destruct x as [z|k]; cbn [Text.intLt ceiling]; [reflexivity|].
  destruct (Z.leb_spec n k), (Z.ltb_spec n (k + 1)); try reflexivity; lia.
Qed.

(** With turns enough, the loop of [padHex] is [padStart]. *)
Lemma padLoop_padStart (length : number) (fuel : nat) :
  forall s, (Z.to_nat (ceiling length - len s) <= fuel)%nat ->
            Hex.padLoop fuel s length = JS.padStart s (ceiling length) 48.
Proof.
  induction fuel as [|f IH]; intros s Hf; cbn [Hex.padLoop].
  - unfold JS.padStart.
    replace (Z.to_nat (ceiling length - len s)) with 0%nat by lia.
    reflexivity.
  - rewrite intLt_ceiling.
    destruct (Z.ltb_spec (len s) (ceiling length)) as [Hlt|Hge].
    + rewrite IH.
      * unfold JS.padStart.
        replace (Z.to_nat (ceiling length - len s))
          with (S (Z.to_nat (ceiling length - len (48 :: s))))
          by (unfold len in *; cbn [List.length]; lia).
        cbn [repeat]. rewrite repeat_cons, <- app_assoc. reflexivity.
      * unfold len in *. cbn [List.length]. lia.
    + unfold JS.padStart.
      replace (Z.to_nat (ceiling length - len s)) with 0%nat by lia.
      reflexivity.
Qed.

Lemma forallb_repeat {A : Type} (f : A -> bool) (x : A) (n : nat) :
  f x = true -> forallb f (repeat x n) = true.
Proof.
  intros Hx. induction n as [|n IH]; [reflexivity|].
  cbn [repeat forallb]. rewrite Hx, IH. reflexivity.
Qed.

(** X5: on valid hex text [padHex] ends and gives [0x] and the digits
    padded with zeros on the left to the wanted count; it never drops a
    digit, the result is valid hex text, and it denotes the same number. *)
Theorem hex_padHex (hex : jsstring) (length : number) :
  HexUtils.test hex = true ->
  exists padded,
    Hex.padHex hex length = Ret (lit "0x" ++ padded)
    /\ padded = JS.padStart (JS.sliceFrom hex 2) (ceiling length) 48
    /\ Text.intLt (len padded) length = false
    /\ len padded = Z.max (ceiling length) (len hex - 2)
    /\ HexUtils.test (lit "0x" ++ padded) = true
    /\ Hex.hexToBigInt (lit "0x" ++ padded) = Hex.hexToBigInt hex.
Proof.
  intros Ht. destruct (test_prefix hex Ht) as (d & r & Hs & Hall).
  assert (Hd : JS.sliceFrom hex 2 = d :: r).
  { rewrite Hs. exact (sliceFrom_app (lit "0x") (d :: r)). }
  exists (JS.padStart (JS.sliceFrom hex 2) (ceiling length) 48).
  assert (Hlen : len hex - 2 = len (d :: r)).
  { rewrite Hs, len_app. change (len (lit "0x")) with 2. lia. }
  assert (Hp : forallb JS.isHexDigit
                 (JS.padStart (d :: r) (ceiling length) 48) = true).
  { unfold JS.padStart. rewrite forallb_app, Hall.
    rewrite forallb_repeat by reflexivity. reflexivity. }
  assert (Hne : JS.padStart (d :: r) (ceiling length) 48 <> []).
  { unfold JS.padStart. destruct (repeat 48 _); discriminate. }
  split; [|split; [reflexivity|split; [|split; [|split]]]].
  - unfold Hex.padHex. rewrite Ht. cbn [negb].
    rewrite padLoop_padStart; [reflexivity|].
    unfold Hex.padTurns, ceiling. pose proof (len_nonneg (JS.sliceFrom hex 2)).
    destruct length; lia.
  - rewrite intLt_ceiling, padStart_len. apply Z.ltb_ge. lia.
  - rewrite padStart_len, Hd, Hlen. reflexivity.
  - rewrite Hd. apply test_intro; assumption.
  - rewrite Hd. unfold Hex.hexToBigInt.
    rewrite Ht, test_intro by assumption. cbn [negb JS.BigInt].
    rewrite stringToBigInt_prefixed by assumption.
    rewrite Hs, stringToBigInt_prefixed by (try discriminate; assumption).
    unfold JS.padStart. rewrite allDigits_zeros. reflexivity.
Qed.

Lemma hex_padHex_witness :
  exists padded,
    Hex.padHex (lit "0x1f") (NInt 4) = Ret (lit "0x" ++ padded)
    /\ padded = JS.padStart (JS.sliceFrom (lit "0x1f") 2) 4 48
    /\ Text.intLt (len padded) (NInt 4) = false
    /\ len padded = Z.max 4 (len (lit "0x1f") - 2)
    /\ HexUtils.test (lit "0x" ++ padded) = true
    /\ Hex.hexToBigInt (lit "0x" ++ padded)
       = Hex.hexToBigInt (lit "0x1f").
Proof. apply (hex_padHex (lit "0x1f") (NInt 4)). reflexivity. Defined.

(** X6: [removePrefix] undoes the prefix [padHex] writes: after padding
    to a count, the digits left are at least that many and end in the
    digits given. *)
Theorem hex_removePrefix_padHex (hex : jsstring) (length : number) :
  HexUtils.test hex = true ->
  exists padded digits zerosBefore,
    Hex.padHex hex length = Ret padded
    /\ Hex.removePrefix hex = Ret digits
    /\ Hex.removePrefix padded = Ret (zeros zerosBefore ++ digits)
    /\ ceiling length <= len (zeros zerosBefore ++ digits).
Proof.
  intros Ht. destruct (test_prefix hex Ht) as (d & r & Hs & Hall).
  assert (Hd : JS.sliceFrom hex 2 = d :: r).
  { rewrite Hs. exact (sliceFrom_app (lit "0x") (d :: r)). }
  exists (lit "0x" ++ JS.padStart (d :: r) (ceiling length) 48), (d :: r),
         (Z.to_nat (ceiling length - len (d :: r))).
  assert (Hp : forallb JS.isHexDigit
                 (JS.padStart (d :: r) (ceiling length) 48) = true).
  { unfold JS.padStart. rewrite forallb_app, Hall.
    rewrite forallb_repeat by reflexivity. reflexivity. }
  assert (Hne : JS.padStart (d :: r) (ceiling length) 48 <> []).
  { unfold JS.padStart. destruct (repeat 48 _); discriminate. }
  split; [|split; [|split]].
  - unfold Hex.padHex. rewrite Ht, Hd. cbn [negb].
    rewrite padLoop_padStart; [reflexivity|].
    unfold Hex.padTurns, ceiling. pose proof (len_nonneg (d :: r)).
    destruct length; lia.
  - unfold Hex.removePrefix. rewrite Ht, Hd. reflexivity.
  - unfold Hex.removePrefix. rewrite test_intro by assumption.
    cbn [negb].
    pose proof (sliceFrom_app (lit "0x")
                  (JS.padStart (d :: r) (ceiling length) 48)) as Hsl.
    change (len (lit "0x")) with 2 in Hsl. rewrite Hsl. reflexivity.
  - change (zeros (Z.to_nat (ceiling length - len (d :: r))) ++ d :: r)
      with (JS.padStart (d :: r) (ceiling length) 48).
    rewrite padStart_len. lia.
Qed.

Lemma hex_removePrefix_padHex_witness :
  exists padded digits zerosBefore,
    Hex.padHex (lit "0x1f") (NInt 4) = Ret padded
    /\ Hex.removePrefix (lit "0x1f") = Ret digits
    /\ Hex.removePrefix padded = Ret (zeros zerosBefore ++ digits)
    /\ 4 <= len (zeros zerosBefore ++ digits).
Proof.
  apply (hex_removePrefix_padHex (lit "0x1f") (NInt 4)). reflexivity.
Defined.

End HexPadding.

(** ** src/encoding/string.js *)
Section StringCodec.

Lemma utf8OfCodePoint_nonempty (cp : Z) : JS.utf8OfCodePoint cp <> [].
Proof.
  unfold JS.utf8OfCodePoint.
  destruct (cp <? 128); [discriminate|].
  destruct (cp <? 2048); [discriminate|].
  destruct (cp <? 65536); discriminate.
Qed.

Lemma bufferFromUtf8_nonempty (s : jsstring) :
  s <> [] -> JS.bufferFromUtf8 s <> [].
Proof.
  destruct s as [|c r]; [contradiction|]. intros _.
  cbn [JS.bufferFromUtf8].
  destruct (JS.isHighSurrogate c).
  - destruct r as [|d r']; [discriminate|].
    destruct (JS.isLowSurrogate d); [|discriminate].
    intros H. apply app_eq_nil in H. destruct H as [H _].
    exact (utf8OfCodePoint_nonempty _ H).
  - destruct (JS.isLowSurrogate c); [discriminate|].
    intros H. apply app_eq_nil in H. destruct H as [H _].
    exact (utf8OfCodePoint_nonempty _ H).
Qed.

Lemma startsWith_prefix (t : jsstring) :
  Text.startsWith (lit "0x" ++ t) (lit "0x") = true.
Proof. destruct t; reflexivity. Qed.

(** Text of hex digits does not start with [0x]. *)
Lemma startsWith_digits (h : jsstring) :
  forallb JS.isHexDigit h = true -> Text.startsWith h (lit "0x") = false.
Proof.
  intros Hall. destruct h as [|a [|b r]]; [reflexivity| |].
  - change (Text.startsWith [a] (lit "0x")) with ((48 =? a) && false).
    apply andb_false_r.
  - cbn [forallb] in Hall.
    apply andb_true_iff in Hall. destruct Hall as [_ Hall].
    apply andb_true_iff in Hall. destruct Hall as [Hb _].
    change (Text.startsWith (a :: b :: r) (lit "0x"))
      with ((48 =? a) && ((120 =? b) && Text.startsWith r [])).
    destruct (Z.eqb_spec 120 b) as [<-|_]; [discriminate Hb|].
    apply andb_false_r.
Qed.

Lemma isValidHex_spec (h : jsstring) :
  StringUtils.isValidHex h = true
  <-> h <> [] /\ forallb JS.isHexDigit h = true.
Proof.
  destruct h as [|a r]; cbn [StringUtils.isValidHex].
  - split; [discriminate|]. intros [H _]. contradiction.
  - split; [intros H; split; [discriminate|exact H]|intros [_ H]; exact H].
Qed.

(** What [decode] makes of what [encode] wrote. *)
Lemma decode_encoded (s : jsstring) :
  s <> [] -> JS.isWellFormed s = true ->
  StringUtils.decode (lit "0x" ++ JS.bufferToHex (JS.bufferFromUtf8 s))
  = Ret s.
Proof.
  intros Hne Hwf.
  unfold StringUtils.decode. rewrite startsWith_prefix.
  pose proof (sliceFrom_app (lit "0x")
                (JS.bufferToHex (JS.bufferFromUtf8 s))) as Hsl.
  change (len (lit "0x")) with 2 in Hsl. rewrite Hsl.
  pose proof (bufferFromUtf8_bytes s Hwf) as Hb.
  assert (Hv : StringUtils.isValidHex
                 (JS.bufferToHex (JS.bufferFromUtf8 s)) = true).
  { apply isValidHex_spec. split.
    - apply bufferToHex_nonempty, bufferFromUtf8_nonempty, Hne.
    - apply bufferToHex_digits, Hb. }
  rewrite Hv. cbn [negb].
  rewrite bufferFromHex_bufferToHex, utf8_round_trip by assumption.
  reflexivity.
Qed.

(** X7: a well-formed string that is not empty comes back from [decode]
    as [encode] took it, through its UTF-8 bytes. *)
Theorem string_round_trip (s : jsstring) :
  s <> [] -> JS.isWellFormed s = true ->
  exists text,
    StringUtils.encode (PString s) = Ret text
    /\ text = lit "0x" ++ JS.bufferToHex (StringUtils.stringToBytes s)
    /\ StringUtils.decode text = Ret s.
Proof.
  intros Hne Hwf. eexists. split; [reflexivity|]. split; [reflexivity|].
  apply decode_encoded; assumption.
Qed.

Lemma string_round_trip_witness :
  exists text,
    StringUtils.encode (PString (lit "Hi")) = Ret text
    /\ text = lit "0x" ++ JS.bufferToHex (StringUtils.stringToBytes (lit "Hi"))
    /\ StringUtils.decode text = Ret (lit "Hi").
Proof.
  apply (string_round_trip (lit "Hi")); [discriminate|reflexivity].
Defined.



(** X9: [decode] takes hex text with or without the prefix and gives the
    same string for both. *)
Theorem string_decode_prefix (h : jsstring) :
  StringUtils.isValidHex h = true ->
  StringUtils.decode h = Ret (JS.bufferToUtf8 (JS.bufferFromHex h))
  /\ StringUtils.decode (lit "0x" ++ h) = StringUtils.decode h.
Proof.
  intros Hv. pose proof Hv as Hv'. apply isValidHex_spec in Hv'.
  destruct Hv' as [_ Hall].
  assert (Hd : StringUtils.decode h
               = Ret (JS.bufferToUtf8 (JS.bufferFromHex h))).
  { unfold StringUtils.decode. rewrite startsWith_digits by assumption.
    rewrite Hv. reflexivity. }
  split; [exact Hd|]. rewrite Hd.
  unfold StringUtils.decode. rewrite startsWith_prefix.
  pose proof (sliceFrom_app (lit "0x") h) as Hsl.
  change (len (lit "0x")) with 2 in Hsl. rewrite Hsl, Hv. reflexivity.
Qed.

Lemma string_decode_prefix_witness :
  StringUtils.decode (lit "4869")
  = Ret (JS.bufferToUtf8 (JS.bufferFromHex (lit "4869")))
  /\ StringUtils.decode (lit "0x" ++ lit "4869")
     = StringUtils.decode (lit "4869").
Proof. apply (string_decode_prefix (lit "4869")). reflexivity. Defined.

(** Hex text of even length, then one digit more, gives the same bytes. *)
Lemma bufferFromHex_odd (n : nat) :
  forall h d, length h = (2 * n)%nat ->
              forallb JS.isHexDigit h = true ->
              JS.bufferFromHex (h ++ [d]) = JS.bufferFromHex h.
Proof.
  induction n as [|n IH]; intros h d Hl Hall.
  - destruct h; [reflexivity|discriminate].
  - destruct h as [|a [|b r]]; try (simpl in Hl; lia).
    cbn [forallb] in Hall.
    apply andb_true_iff in Hall. destruct Hall as [Ha Hall].
    apply andb_true_iff in Hall. destruct Hall as [Hb Hall].
    cbn [app JS.bufferFromHex]. unfold JS.isHexDigit in Ha, Hb.
    destruct (JS.digitIn 16 a); [|discriminate].
    destruct (JS.digitIn 16 b); [|discriminate].
    rewrite IH; [reflexivity| |assumption]. simpl in Hl. lia.
Qed.

(** X10: [decode] reads whole bytes only: one hex digit after an even
    count of them is dropped without an error. *)
Theorem string_decode_odd_digit (h : jsstring) (d : Z) :
  h <> [] -> Z.even (len h) = true ->
  forallb JS.isHexDigit h = true -> JS.isHexDigit d = true ->
  StringUtils.decode (h ++ [d]) = StringUtils.decode h.
Proof.
  intros Hne Hev Hall Hd.
  assert (Hv : StringUtils.isValidHex h = true)
    by (apply isValidHex_spec; split; assumption).
  assert (Hall' : forallb JS.isHexDigit (h ++ [d]) = true).
  { rewrite forallb_app, Hall. cbn [forallb]. rewrite Hd. reflexivity. }
  assert (Hv' : StringUtils.isValidHex (h ++ [d]) = true).
  { apply isValidHex_spec. split; [|assumption].
    destruct h; discriminate. }
  unfold StringUtils.decode.
  rewrite !startsWith_digits by assumption. rewrite Hv, Hv'. cbn [negb].
  apply Z.even_spec in Hev. destruct Hev as [k Hk].
  rewrite (bufferFromHex_odd (Z.to_nat k)); [reflexivity| |assumption].
  unfold len in Hk. lia.
Qed.

Lemma string_decode_odd_digit_witness :
  StringUtils.decode (lit "4869" ++ [55]) = StringUtils.decode (lit "4869").
Proof.
  apply (string_decode_odd_digit (lit "4869") 55);
    [discriminate|reflexivity|reflexivity|reflexivity].
Defined.

(** X11: [padString] gives a string of even length, leaves one of even
    length as it is, so padding twice is padding once, and keeps hex
    digits hex digits. *)
Theorem string_padString (value : jsstring) :
  Z.even (len (StringUtils.padString value)) = true
  /\ (Z.even (len value) = true -> StringUtils.padString value = value)
  /\ StringUtils.padString (StringUtils.padString value)
     = StringUtils.padString value
  /\ (StringUtils.isValidHex value = true ->
      StringUtils.isValidHex (StringUtils.padString value) = true).
Proof.
  assert (Hmod : forall n, (n mod 2 =? 0) = Z.even n).
  { intros n. rewrite Zeven_mod. reflexivity. }
  assert (He : Z.even (len (StringUtils.padString value)) = true).
  { unfold StringUtils.padString. rewrite Hmod.
    destruct (Z.even (len value)) eqn:Hv; cbn [negb]; [exact Hv|].
    rewrite len_app. change (len (lit "0")) with 1.
    rewrite Z.add_comm, Z.even_add, Hv. reflexivity. }
  assert (Hid : forall v, Z.even (len v) = true ->
                          StringUtils.padString v = v).
  { intros v Hv. unfold StringUtils.padString. rewrite Hmod, Hv.
    reflexivity. }
  split; [exact He|]. split; [apply Hid|]. split; [apply Hid, He|].
  intros Hv. unfold StringUtils.padString.
  destruct (negb (len value mod 2 =? 0)); [|exact Hv].
  apply isValidHex_spec in Hv. destruct Hv as [_ Hall].
  apply isValidHex_spec. split; [discriminate|].
  cbn [lit app forallb]. exact Hall.
Qed.

Lemma string_padString_witness :
  StringUtils.padString (lit "ab") = lit "ab"
  /\ StringUtils.isValidHex (StringUtils.padString (lit "abc")) = true.
Proof.
  split.
  - apply (proj1 (proj2 (string_padString (lit "ab")))). reflexivity.
  - apply (proj2 (proj2 (proj2 (string_padString (lit "abc"))))).
    reflexivity.
Defined.

(** X12: the two validators of hex text accept different strings.  What
    [isValidHex] accepts has no prefix and fails [isHex]; what [isHex]
    accepts is [0x] followed by text [isValidHex] accepts. *)
Theorem hex_validators (s : jsstring) :
  (StringUtils.isValidHex s = true -> HexUtils.isHex (VPrim (PString s)) = false)
  /\ (ValidationUtils.isValidHexNumber s = StringUtils.isValidHex s)
  /\ (ValidationUtils.isHex s = HexUtils.isHex (VPrim (PString s)))
  /\ (HexUtils.isHex (VPrim (PString s)) = true <->
      exists t, s = lit "0x" ++ t /\ StringUtils.isValidHex t = true).
Proof.
  split; [|split; [reflexivity|split; [reflexivity|]]].
  - intros Hv. apply isValidHex_spec in Hv. destruct Hv as [_ Hall].
    cbn [HexUtils.isHex]. apply test_digits, Hall.
  - cbn [HexUtils.isHex]. split.
    + intros Ht. destruct (test_prefix s Ht) as (d & r & Hs & Hall).
      exists (d :: r). split; [exact Hs|exact Hall].
    + intros (t & -> & Hv). apply isValidHex_spec in Hv.
      destruct Hv as [Hne Hall]. apply test_intro; assumption.
Qed.

Lemma hex_validators_witness :
  HexUtils.isHex (VPrim (PString (lit "4869"))) = false.
Proof. apply (proj1 (hex_validators (lit "4869"))). reflexivity. Defined.

End StringCodec.

(** ** Addresses, keys and hashes *)
Section Addresses.

Lemma prefixedDigits_spec (n : Z) (s : jsstring) :
  ValidationUtils.prefixedDigits n s = true
  <-> exists t, s = lit "0x" ++ t /\ len t = n
                /\ forallb JS.isHexDigit t = true.
Proof.
  split.
  - destruct s as [|a [|b r]]; try discriminate.
    unfold ValidationUtils.prefixedDigits. intros H.
    apply andb_true_iff in H. destruct H as [H Hall].
    apply andb_true_iff in H. destruct H as [H Hl].
    apply andb_true_iff in H. destruct H as [Ha Hb].
    apply Z.eqb_eq in Ha, Hb, Hl. subst a b.
    exists r. repeat split; assumption.
  - intros (t & -> & Hl & Hall). subst n.
    change (ValidationUtils.prefixedDigits (len t) (lit "0x" ++ t))
      with ((48 =? 48) && (120 =? 120) && (len t =? len t)
            && forallb JS.isHexDigit t).
    rewrite !Z.eqb_refl, Hall. reflexivity.
Qed.

(** An address is hex text of 42 characters, and conversely. *)
Lemma isAddress_test (s : jsstring) :
  ValidationUtils.isAddress s = HexUtils.test s && (len s =? 42).
Proof.
  destruct (ValidationUtils.isAddress s) eqn:Ha.
  - apply prefixedDigits_spec in Ha. destruct Ha as (t & -> & Hl & Hall).
    assert (t <> []) by (intros ->; discriminate Hl).
    rewrite test_intro by assumption.
    rewrite len_app, Hl. reflexivity.
  - destruct (HexUtils.test s) eqn:Ht; [|reflexivity].
    destruct (Z.eqb_spec (len s) 42) as [Hl|]; [|reflexivity].
    destruct (test_prefix s Ht) as (d & r & Hs & Hall).
    assert (Hc : ValidationUtils.isAddress s = true).
    { apply prefixedDigits_spec. exists (d :: r).
      repeat split; try assumption.
      rewrite Hs, len_app in Hl. change (len (lit "0x")) with 2 in Hl. lia. }
    congruence.
Qed.

(** X13: [encodeParameter] takes a string as an [address] exactly when
    [isAddress] accepts it, and then gives its 40 digits after 24 zeros;
    any other string is refused as an invalid address. *)
Theorem abi_address_iff_isAddress (s : jsstring) :
  (ValidationUtils.isAddress s = true ->
   ABIUtils.encodeParameter (lit "address") (PString s)
   = Ret (zeros 24 ++ JS.sliceFrom s 2)
   /\ len (JS.sliceFrom s 2) = 40)
  /\ (ValidationUtils.isAddress s = false ->
      ABIUtils.encodeParameter (lit "address") (PString s)
      = Throw ABIUtils.invalidAddress)
  /\ AddressUtils.isAddress s = ValidationUtils.isAddress s.
Proof.
  split; [|split; [|reflexivity]]; intros H;
    unfold ABIUtils.encodeParameter; dispatch;
    unfold ABIUtils.encodeAddress; cbn [HexUtils.isHex];
    rewrite isAddress_test in H.
  - apply andb_true_iff in H. destruct H as [Ht Hl]. rewrite Ht, Hl.
    cbn [negb orb]. apply Z.eqb_eq in Hl.
    assert (Hd : len (JS.sliceFrom s 2) = 40)
      by (rewrite len_sliceFrom; lia).
    split; [|exact Hd]. unfold JS.padStart. rewrite Hd. reflexivity.
  - apply andb_false_iff in H. destruct H as [H|H]; rewrite H.
    + reflexivity.
    + cbn [negb]. rewrite orb_true_r. reflexivity.
Qed.

Lemma abi_address_iff_isAddress_witness :
  ABIUtils.encodeParameter (lit "address") (PString (lit "0x12345"))
  = Throw ABIUtils.invalidAddress.
Proof.
  apply (proj1 (proj2 (abi_address_iff_isAddress (lit "0x12345")))).
  reflexivity.
Defined.

(** X14: nothing [isTxHash] or [isPrivateKey] accepts can be encoded as
    [bytes32]: with the prefix the text has 66 characters and fails the
    length test, without it the 64 digits fail [isHex]. *)
Theorem abi_bytes32_rejects_hashes (s : jsstring) :
  (ValidationUtils.isTxHash s = true ->
   len s = 66
   /\ ABIUtils.encodeParameter (lit "bytes32") (PString s)
      = Throw ABIUtils.lengthError)
  /\ (ValidationUtils.isPrivateKey s = true ->
      ABIUtils.encodeParameter (lit "bytes32") (PString s)
      = Throw ABIUtils.lengthError
      \/ ABIUtils.encodeParameter (lit "bytes32") (PString s)
         = Throw ABIUtils.formatError).
Proof.
  assert (Hh : ValidationUtils.isTxHash s = true ->
               len s = 66
               /\ ABIUtils.encodeParameter (lit "bytes32") (PString s)
                  = Throw ABIUtils.lengthError).
  { intros H. apply prefixedDigits_spec in H.
    destruct H as (t & -> & Hl & _).
    assert (Hlen : len (lit "0x" ++ t) = 66)
      by (rewrite len_app, Hl; reflexivity).
    split; [exact Hlen|].
    unfold ABIUtils.encodeParameter. dispatch.
    unfold ABIUtils.encodeBytes32. rewrite Hlen. reflexivity. }
  split; [exact Hh|]. intros H. unfold ValidationUtils.isPrivateKey in H.
  apply orb_true_iff in H. destruct H as [H|H].
  - left. apply Hh, H.
  - right. unfold ValidationUtils.digits in H.
    apply andb_true_iff in H. destruct H as [Hl Hall].
    unfold ABIUtils.encodeParameter. dispatch.
    unfold ABIUtils.encodeBytes32. cbn [HexUtils.isHex].
    rewrite Hl, (test_digits s Hall). reflexivity.
Qed.

Lemma abi_bytes32_rejects_hashes_witness :
  len (lit "0x" ++ repeat 97 64) = 66
  /\ ABIUtils.encodeParameter (lit "bytes32")
       (PString (lit "0x" ++ repeat 97 64))
     = Throw ABIUtils.lengthError.
Proof.
  apply (proj1 (abi_bytes32_rejects_hashes (lit "0x" ++ repeat 97 64))).
  reflexivity.
Defined.

Lemma toLowerCase_idem (s : jsstring) :
  Text.toLowerCase (Text.toLowerCase s) = Text.toLowerCase s.
Proof.
  unfold Text.toLowerCase. rewrite map_map. apply map_ext. intros c.
  destruct ((65 <=? c) && (c <=? 90)) eqn:Hc; [|rewrite Hc; reflexivity].
  apply andb_true_iff in Hc. destruct Hc as [Ha Hb].
  apply Z.leb_le in Ha, Hb.
  destruct (Z.leb_spec 65 (c + 32)); [|lia].
  destruct (Z.leb_spec (c + 32) 90); [lia|]. reflexivity.
Qed.

Lemma toLowerCase_digit (c : Z) :
  JS.isHexDigit c = true ->
  JS.isHexDigit (if (65 <=? c) && (c <=? 90) then c + 32 else c) = true.
Proof.
  intros H. destruct ((65 <=? c) && (c <=? 90)) eqn:Hc; [|exact H].
  apply andb_true_iff in Hc. destruct Hc as [Ha Hb].
  apply Z.leb_le in Ha, Hb.
  unfold JS.isHexDigit in *.
  destruct (JS.digitIn 16 c) as [d|] eqn:Hd; [|discriminate].
  pose proof (digitIn_range _ _ _ Hd) as Hr.
  unfold JS.digitIn, JS.digitVal in *.
  destruct (Z.leb_spec 48 c); [|lia].
  destruct (Z.leb_spec c 57); [lia|]. cbn [andb] in Hd.
  destruct (Z.leb_spec 97 c); [lia|]. cbn [andb] in Hd.
  destruct (Z.leb_spec 65 c); [|lia].
  destruct (Z.leb_spec c 90); [|lia]. cbn [andb] in Hd.
  destruct (Z.ltb_spec (c - 55) 16); [|discriminate].
  destruct (Z.leb_spec 48 (c + 32)); [|lia].
  destruct (Z.leb_spec (c + 32) 57); [lia|]. cbn [andb].
  destruct (Z.leb_spec 97 (c + 32)); [|lia].
  destruct (Z.leb_spec (c + 32) 122); [|lia]. cbn [andb].
  destruct (Z.ltb_spec (c + 32 - 87) 16); [reflexivity|lia].
Qed.

Lemma toLowerCase_address (s : jsstring) :
  ValidationUtils.prefixedDigits 40 s = true ->
  ValidationUtils.prefixedDigits 40 (Text.toLowerCase s) = true.
Proof.
  intros H. apply prefixedDigits_spec in H.
  destruct H as (t & -> & Hl & Hall).
  apply prefixedDigits_spec. exists (Text.toLowerCase t).
  split; [reflexivity|]. split.
  - unfold len, Text.toLowerCase in *. rewrite length_map. exact Hl.
  - unfold Text.toLowerCase. rewrite forallb_forall in *.
    intros c Hc. apply in_map_iff in Hc. destruct Hc as (c0 & <- & Hc0).
    apply toLowerCase_digit, Hall, Hc0.
Qed.

(** X15: [formatAddress] refuses what [isAddress] refuses; for an address
    it gives a string that is still an address, is its own lowercase form
    so that formatting again changes nothing, is no checksum address, and
    that [encodeParameter] takes as an [address]. *)
Theorem address_formatAddress (address : jsstring) :
  (AddressUtils.isAddress address = false ->
   AddressUtils.formatAddress address = Throw AddressUtils.invalidAddress)
  /\ (AddressUtils.isAddress address = true ->
      exists lower,
        AddressUtils.formatAddress address = Ret lower
        /\ AddressUtils.isAddress lower = true
        /\ AddressUtils.formatAddress lower = Ret lower
        /\ AddressUtils.isChecksumAddress lower = false
        /\ ABIUtils.encodeParameter (lit "address") (PString lower)
           = Ret (zeros 24 ++ JS.sliceFrom lower 2)).
Proof.
  unfold AddressUtils.formatAddress, AddressUtils.isAddress.
  split; intros H; rewrite H; [reflexivity|].
  exists (Text.toLowerCase address).
  pose proof (toLowerCase_address address H) as Hl.
  split; [reflexivity|]. split; [exact Hl|]. split; [|split].
  - rewrite Hl, toLowerCase_idem. reflexivity.
  - unfold AddressUtils.isChecksumAddress.
    rewrite toLowerCase_idem, streq_refl. apply andb_false_r.
  - change (ValidationUtils.prefixedDigits 40 (Text.toLowerCase address))
      with (ValidationUtils.isAddress (Text.toLowerCase address)) in Hl.
    rewrite isAddress_test in Hl.
    apply andb_true_iff in Hl. destruct Hl as [Ht Hlen].
    unfold ABIUtils.encodeParameter. dispatch.
    unfold ABIUtils.encodeAddress. cbn [HexUtils.isHex].
    rewrite Ht, Hlen. cbn [negb orb]. apply Z.eqb_eq in Hlen.
    unfold JS.padStart. rewrite len_sliceFrom by lia. rewrite Hlen.
    reflexivity.
Qed.

Lemma address_formatAddress_witness :
  exists lower,
    AddressUtils.formatAddress
      (lit "0x32Be343B94f860124dC4fEe278FDCBD38C102D88") = Ret lower
    /\ AddressUtils.isAddress lower = true
    /\ AddressUtils.formatAddress lower = Ret lower
    /\ AddressUtils.isChecksumAddress lower = false
    /\ ABIUtils.encodeParameter (lit "address") (PString lower)
       = Ret (zeros 24 ++ JS.sliceFrom lower 2).
Proof.
  apply (proj2 (address_formatAddress
                  (lit "0x32Be343B94f860124dC4fEe278FDCBD38C102D88"))).
  reflexivity.
Defined.

End Addresses.

(** ** Big integers: division and the conversion of wei *)
Section BigIntegers.

(** X16: for a divisor that is not zero, [divide] and [mod_] give the
    quotient rounded towards zero and the remainder that goes with it:
    the dividend less the product of quotient and divisor is the
    remainder, which is smaller than the divisor in absolute value and
    has the sign of the dividend.  Division by zero is an error of the
    code in [divide] and a [RangeError] of the runtime in [mod_]. *)
Theorem bigint_divide_mod (a b : prim) (x y : Z) :
  BigIntUtils.toBigInt a = Ret x ->
  BigIntUtils.toBigInt b = Ret y ->
  (y <> 0 ->
   exists q r,
     BigIntUtils.divide a b = Ret q
     /\ BigIntUtils.mod_ a b = Ret r
     /\ BigIntUtils.multiply (PBigInt q) b = Ret (q * y)
     /\ BigIntUtils.subtract a (PBigInt (q * y)) = Ret r
     /\ BigIntUtils.add (PBigInt (q * y)) (PBigInt r) = Ret x
     /\ Z.abs r < Z.abs y
     /\ 0 <= r * x)
  /\ (y = 0 ->
      BigIntUtils.divide a b = Throw BigIntUtils.divisionByZero
      /\ BigIntUtils.mod_ a b = Throw RangeError).
Proof.
  intros Ha Hb.
  unfold BigIntUtils.divide, BigIntUtils.mod_, BigIntUtils.multiply,
    BigIntUtils.subtract, BigIntUtils.add.
  rewrite Ha, Hb. cbn [bind BigIntUtils.toBigInt].
  split; intros Hy.
  - exists (Z.quot x y), (Z.rem x y).
    apply Z.eqb_neq in Hy. rewrite Hy. apply Z.eqb_neq in Hy.
    pose proof (Z.quot_rem' x y) as Hqr.
    repeat split.
    + f_equal. lia.
    + f_equal. lia.
    + apply Z.rem_bound_abs, Hy.
    + apply Z.rem_sign_mul, Hy.
  - subst y. split; reflexivity.
Qed.

Lemma bigint_divide_mod_witness :
  exists q r,
    BigIntUtils.divide (PBigInt (-7)) (PString (lit "2")) = Ret q
    /\ BigIntUtils.mod_ (PBigInt (-7)) (PString (lit "2")) = Ret r
    /\ BigIntUtils.multiply (PBigInt q) (PString (lit "2")) = Ret (q * 2)
    /\ BigIntUtils.subtract (PBigInt (-7)) (PBigInt (q * 2)) = Ret r
    /\ BigIntUtils.add (PBigInt (q * 2)) (PBigInt r) = Ret (-7)
    /\ Z.abs r < Z.abs 2
    /\ 0 <= r * -7.
Proof.
  apply (proj1 (bigint_divide_mod (PBigInt (-7)) (PString (lit "2"))
                  (-7) 2 eq_refl eq_refl)).
  discriminate.
Defined.

Lemma decDigits_decOf (fuel : nat) :
  forall n acc, Text.decDigits fuel n acc = decOf fuel n ++ acc.
Proof.
  induction fuel as [|f IH]; intros n acc; simpl; [reflexivity|].
  destruct (n <? 10); [reflexivity|].
  rewrite IH, <- app_assoc. reflexivity.
Qed.

Lemma decimal_fuel_enough (n : Z) :
  0 <= n -> n < 10 ^ Z.of_nat (S (Z.to_nat (Z.log2 n))).
Proof.
  intros Hn.
  assert (Hl : 0 <= Z.log2 n) by apply Z.log2_nonneg.
  rewrite Nat2Z.inj_succ, Z2Nat.id by assumption.
  destruct (Z.eq_dec n 0) as [->|Hz]; [reflexivity|].
  assert (Hlt : n < 2 ^ Z.succ (Z.log2 n)) by (apply Z.log2_spec; lia).
  eapply Z.lt_le_trans; [exact Hlt|].
  apply Z.pow_le_mono_l. lia.
Qed.

Lemma digitIn_decimal (d : Z) :
  0 <= d < 10 -> JS.digitIn 10 (48 + d) = Some d.
Proof.
  intros Hd. unfold JS.digitIn, JS.digitVal.
  destruct (Z.leb_spec 48 (48 + d)); [|lia].
  destruct (Z.leb_spec (48 + d) 57); [|lia]. cbn [andb].
  replace (48 + d - 48) with d by lia.
  destruct (Z.ltb_spec d 10); [reflexivity|lia].
Qed.

Lemma allDigits_decOf (fuel : nat) :
  forall n, 0 <= n < 10 ^ Z.of_nat fuel ->
            JS.allDigits 10 (decOf fuel n) 0 = Some n.
Proof.
  induction fuel as [|f IH]; intros n Hn.
  - simpl in *. f_equal; lia.
  - cbn [decOf]. destruct (Z.ltb_spec n 10) as [Hs|Hs].
    + cbn [JS.allDigits]. rewrite digitIn_decimal by lia. f_equal; lia.
    + rewrite allDigits_app, IH.
      * cbn [JS.allDigits].
        rewrite digitIn_decimal by (apply Z.mod_pos_bound; lia).
        f_equal; pose proof (Z.div_mod n 10); lia.
      * rewrite Nat2Z.inj_succ, Z.pow_succ_r in Hn by lia.
        split; [apply Z.div_pos; lia|].
        apply Z.div_lt_upper_bound; lia.
Qed.

(** The decimal text of a non-negative integer reads back as it. *)
Lemma parseDigits_natToString10 (n : Z) :
  0 <= n -> JS.parseDigits 10 (Text.natToString10 n) = Some n.
Proof.
  intros Hn. unfold Text.natToString10.
  rewrite decDigits_decOf, app_nil_r.
  pose proof (allDigits_decOf (S (Z.to_nat (Z.log2 n))) n
                (conj Hn (decimal_fuel_enough n Hn))) as Ha.
  cbn [decOf] in *. destruct (n <? 10); [exact Ha|].
  destruct (decOf (Z.to_nat (Z.log2 n)) (n / 10)); exact Ha.
Qed.

(** X17: [weiToEther] keeps whole ether only.  An amount of less than
    [10 ^ 18] wei, of either sign, is written [0]; an amount that is not
    negative is written as the decimal digits of its quotient by
    [10 ^ 18], the rest being dropped. *)
Theorem format_weiToEther (wei : prim) (w : Z) :
  BigIntUtils.toBigInt wei = Ret w ->
  (- 10 ^ 18 < w < 10 ^ 18 -> FormatUtils.weiToEther wei = Ret (lit "0"))
  /\ (0 <= w ->
      exists text,
        FormatUtils.weiToEther wei = Ret text
        /\ JS.parseDigits 10 text = Some (w / 10 ^ 18)).
Proof.
  intros Hw. unfold FormatUtils.weiToEther, FormatUtils.weiPerEther.
  rewrite Hw. cbn [bind]. split; intros Hr.
  - assert (Hq : Z.quot w (10 ^ 18) = 0).
    { destruct (Z_lt_le_dec w 0) as [Hneg|Hpos].
      - replace w with (- (- w)) by lia.
        rewrite Z.quot_opp_l by discriminate.
        rewrite Z.quot_small by lia. reflexivity.
      - apply Z.quot_small. lia. }
    rewrite Hq. reflexivity.
  - assert (Hp : 0 < 10 ^ 18) by reflexivity.
    rewrite Z.quot_div_nonneg by lia.
    assert (Hq : 0 <= w / 10 ^ 18) by (apply Z.div_pos; lia).
    eexists. split; [reflexivity|].
    unfold Text.bigIntToString.
    destruct (Z.ltb_spec (w / 10 ^ 18) 0); [lia|].
    apply parseDigits_natToString10, Hq.
Qed.

Lemma format_weiToEther_witness :
  FormatUtils.weiToEther (PString (lit "999999999999999999"))
  = Ret (lit "0").
Proof.
  apply (proj1 (format_weiToEther (PString (lit "999999999999999999"))
                  999999999999999999 eq_refl)).
  split; reflexivity.
Defined.

End BigIntegers.

(** ** Decoding JSON values *)
Section JSONDecoding.

Lemma getItemLength_known (t : jsstring) :
  (exists n, JSONDecode.getItemLength t = Ret n) ->
  JSONDecode.getItemLength t = Ret 64.
Proof.
  unfold JSONDecode.getItemLength. intros [n H].
  destruct (streq t (lit "uint256") || streq t (lit "address")
            || streq t (lit "bool") || streq t (lit "bytes32"));
    [reflexivity|].
  destruct (streq t (lit "string") || streq t (lit "bytes"));
    [reflexivity|discriminate].
Qed.

(** The loop of [decodeArray] at the start of a run of 64-character
    words reads them one by one. *)
Lemma decodeArrayLoop_words (tags : list jsstring) :
  forall words pre rest decoded,
    length words = length tags ->
    Forall (fun w => len w = 64) words ->
    Forall (fun t => JSONDecode.getItemLength t = Ret 64) tags ->
    JSONDecode.decodeArrayLoop (pre ++ concat words ++ rest) tags
      (len pre) decoded
    = (vs <- decodeWords tags words ;; Ret (decoded ++ vs)).
Proof.
  induction tags as [|t tags IH]; intros words pre rest decoded Hl Hw Ht.
  - destruct words; [|discriminate]. cbn. rewrite app_nil_r. reflexivity.
  - destruct words as [|w words]; [discriminate|].
    inversion Hw as [|? ? Hw1 Hw2]. inversion Ht as [|? ? Ht1 Ht2]. subst.
    cbn [JSONDecode.decodeArrayLoop decodeWords concat].
    rewrite Ht1. cbn [bind]. rewrite <- app_assoc.
    rewrite <- Hw1 at 1. rewrite slice_app_prefix.
    destruct (ABIUtils.decodeParameter t w) as [v|e]; cbn [bind];
      [|reflexivity].
    replace (len pre + 64) with (len (pre ++ w))
      by (rewrite len_app; lia).
    rewrite (app_assoc pre w). rewrite IH; try assumption.
    + destruct (decodeWords tags words) as [vs|e]; cbn [bind];
        [|reflexivity].
      rewrite <- app_assoc. reflexivity.
    + simpl in Hl. lia.
Qed.

Lemma json_decodeArray_words_aux (tags words : list jsstring)
                                   (rest : jsstring) :
  length words = length tags ->
  Forall (fun w => len w = 64) words ->
  Forall (fun t => JSONDecode.getItemLength t = Ret 64) tags ->
  JSONDecode.decodeArray (concat words ++ rest) tags
  = decodeWords tags words.
Proof.
  intros Hl Hw Ht. unfold JSONDecode.decodeArray.
  pose proof (decodeArrayLoop_words tags words [] rest [] Hl Hw Ht) as H.
  cbn [app len length Z.of_nat] in H. rewrite H.
  destruct (decodeWords tags words); reflexivity.
Qed.

(** X18: [decodeArray] cuts the text into words of 64 characters, the
    i-th word decoded under the i-th tag in order; text after the last
    word is ignored. *)
Theorem json_decodeArray_words (tags words : list jsstring)
                               (rest : jsstring) :
  length words = length tags ->
  Forall (fun w => len w = 64) words ->
  Forall (fun t => JSONDecode.getItemLength t = Ret 64) tags ->
  JSONDecode.decodeArray (concat words ++ rest) tags
  = decodeWords tags words.
Proof.
  exact (json_decodeArray_words_aux tags words rest).
Qed.

Lemma json_decodeArray_words_witness :
  JSONDecode.decodeArray
    (concat [ABIUtils.wordTrue; ABIUtils.wordFalse] ++ lit "ff")
    [lit "bool"; lit "uint256"]
  = decodeWords [lit "bool"; lit "uint256"]
      [ABIUtils.wordTrue; ABIUtils.wordFalse].
Proof.
  apply (json_decodeArray_words [lit "bool"; lit "uint256"]
           [ABIUtils.wordTrue; ABIUtils.wordFalse] (lit "ff")).
  - reflexivity.
  - repeat constructor.
  - repeat constructor.
Defined.

(** The word of a word-sized primitive: written, 64 characters long, and
    decoded under its tag to the decoded form. *)
Lemma wordOf_spec (p : prim) :
  wordSized p = true ->
  JSONUtils.encodeItem (VPrim p) = Ret (wordOf p)
  /\ len (wordOf p) = 64
  /\ JSONDecode.getItemLength (tagOf p) = Ret 64
  /\ ABIUtils.decodeParameter (tagOf p) (wordOf p) = Ret (decodedForm p).
Proof.
  intros Hs. unfold wordOf. destruct p as [| |b|[n|k]|z|s]; try discriminate.
  - (* boolean *)
    destruct b; repeat split.
  - (* number *)
    cbn [wordSized] in Hs. apply andb_true_iff in Hs.
    destruct Hs as [H0 H1]. apply Z.leb_le in H0. apply Z.ltb_lt in H1.
    assert (He : JSONUtils.encodeItem (VPrim (PNumber (NInt n)))
                 = Ret (JS.padStart (JS.natToString16 n) 64 48)).
    { unfold JSONUtils.encodeItem.
      change (JSONUtils.getType (VPrim (PNumber (NInt n))))
        with (Ret (A := jsstring) (lit "uint256")).
      cbn [bind]. unfold ABIUtils.encodeParameter. dispatch.
      unfold ABIUtils.encodeUInt256, JS.bigIntToString16.
      cbn [JS.BigInt bind].
      destruct (Z.ltb_spec n 0); [lia|reflexivity]. }
    rewrite He. split; [reflexivity|]. split; [|split; [reflexivity|]].
    + rewrite padStart_len.
      pose proof (uint_digits_le n (conj H0 H1)) as Hd.
      unfold JS.bigIntToString16 in Hd.
      destruct (Z.ltb_spec n 0); [lia|]. lia.
    + cbn [tagOf decodedForm]. unfold ABIUtils.decodeParameter. dispatch.
      apply decodeUInt256_padded, H0.
  - (* string *)
    cbn [wordSized] in Hs. apply andb_true_iff in Hs.
    destruct Hs as [Hs Hl]. apply andb_true_iff in Hs.
    destruct Hs as [Hwf Hnul]. apply negb_true_iff in Hnul.
    apply Z.leb_le in Hl.
    assert (He : JSONUtils.encodeItem (VPrim (PString s))
                 = Ret (JS.padStart
                          (JS.bufferToHex (JS.bufferFromUtf8 s)) 64 48)).
    { unfold JSONUtils.encodeItem.
      change (JSONUtils.getType (VPrim (PString s)))
        with (Ret (A := jsstring) (lit "string")).
      cbn [bind]. unfold ABIUtils.encodeParameter. dispatch.
      reflexivity. }
    rewrite He. split; [reflexivity|]. split; [|split; [reflexivity|]].
    + rewrite padStart_len, len_bufferToHex. lia.
    + cbn [tagOf decodedForm]. unfold ABIUtils.decodeParameter. dispatch.
      apply decodeString_padded; assumption.
Qed.

Lemma encodeArray_words (items : list prim) :
  Forall (fun p => wordSized p = true) items ->
  forall encoded,
    JSONUtils.encodeArray (map VPrim items) encoded
    = Ret (encoded ++ concat (map wordOf items)).
Proof.
  induction 1 as [|p items Hp _ IH]; intros encoded.
  - cbn. rewrite app_nil_r. reflexivity.
  - cbn [map JSONUtils.encodeArray concat].
    destruct (wordOf_spec p Hp) as (He & _). rewrite He. cbn [bind].
    rewrite IH, <- app_assoc. reflexivity.
Qed.

Lemma decodeWords_wordOf (items : list prim) :
  Forall (fun p => wordSized p = true) items ->
  decodeWords (map tagOf items) (map wordOf items)
  = Ret (map decodedForm items).
Proof.
  induction 1 as [|p items Hp _ IH]; [reflexivity|].
  cbn [map decodeWords].
  destruct (wordOf_spec p Hp) as (_ & _ & _ & Hd). rewrite Hd, IH.
  reflexivity.
Qed.

Lemma len_concat_words (items : list prim) :
  Forall (fun p => wordSized p = true) items ->
  len (concat (map wordOf items)) = 64 * len items.
Proof.
  induction 1 as [|p items Hp _ IH]; [reflexivity|].
  cbn [map concat]. rewrite len_app, IH.
  destruct (wordOf_spec p Hp) as (_ & Hl & _). rewrite Hl.
  unfold len. cbn [length]. lia.
Qed.

(** X19: an array of word-sized primitives comes back from [decodeJSON]
    under the tags [getType] gave its items: the text has 64 characters
    an item, booleans and strings come back as they were, and a number
    comes back as the big integer of its value. *)
Theorem json_array_round_trip (items : list prim) :
  Forall (fun p => wordSized p = true) items ->
  exists text,
    JSONUtils.encodeJSON (VArray (map VPrim items)) = Ret text
    /\ len text = 64 * len items
    /\ Forall2 (fun p t => JSONUtils.getType (VPrim p) = Ret t)
         items (map tagOf items)
    /\ JSONDecode.decodeJSON text (DArray (map tagOf items))
       = Ret (JSONDecode.asArray (map decodedForm items)).
Proof.
  intros Hs. exists (concat (map wordOf items)).
  cbn [JSONUtils.encodeJSON JSONDecode.decodeJSON].
  rewrite (encodeArray_words items Hs []). cbn [app].
  split; [reflexivity|]. split; [apply len_concat_words, Hs|]. split.
  - induction Hs as [|p items Hp _ IH]; [constructor|].
    cbn [map]. constructor; [|exact IH].
    destruct p as [| |b|[n|k]|z|s]; try discriminate; reflexivity.
  - rewrite <- (app_nil_r (concat (map wordOf items))).
    rewrite json_decodeArray_words_aux.
    + rewrite decodeWords_wordOf by assumption. reflexivity.
    + rewrite !length_map. reflexivity.
    + apply Forall_forall. intros w Hw. apply in_map_iff in Hw.
      destruct Hw as (p & <- & Hp). rewrite Forall_forall in Hs.
      apply wordOf_spec, Hs, Hp.
    + apply Forall_forall. intros t Ht. apply in_map_iff in Ht.
      destruct Ht as (p & <- & Hp). rewrite Forall_forall in Hs.
      apply wordOf_spec, Hs, Hp.
Qed.

End JSONDecoding.

(** ** JSON values there and back, and where they fail *)
Section JSONRoundTrip.

Lemma json_array_round_trip_witness :
  exists text,
    JSONUtils.encodeJSON
      (VArray (map VPrim [PNumber (NInt 1000); PString (lit "transfer");
                          PBool true])) = Ret text
    /\ len text = 64 * 3
    /\ Forall2 (fun p t => JSONUtils.getType (VPrim p) = Ret t)
         [PNumber (NInt 1000); PString (lit "transfer"); PBool true]
         [lit "uint256"; lit "string"; lit "bool"]
    /\ JSONDecode.decodeJSON text
         (DArray [lit "uint256"; lit "string"; lit "bool"])
       = Ret (JSONDecode.asArray
                [PBigInt 1000; PString (lit "transfer"); PBool true]).
Proof.
  apply (json_array_round_trip
           [PNumber (NInt 1000); PString (lit "transfer"); PBool true]).
  repeat constructor.
Defined.







(** X22: [decodeJSON] does not compare the length of the text with the
    descriptor.  On the empty text a [bool] decodes to [false], a
    [string], [bytes32] or [bytes] to the empty string and an [address]
    to [0x]; a [uint256] alone throws, a [SyntaxError] of the runtime. *)
Theorem json_decode_empty_text (tags : list jsstring) :
  forallb blankTag tags = true ->
  JSONDecode.decodeJSON [] (DArray tags)
  = Ret (JSONDecode.asArray (map blankValue tags))
  /\ JSONDecode.decodeJSON [] (DArray (tags ++ [lit "uint256"]))
     = Throw SyntaxError.
Proof.
  intros Hb. cbn [JSONDecode.decodeJSON]. unfold JSONDecode.decodeArray.
  assert (Hloop : forall more offset decoded,
            0 <= offset ->
            JSONDecode.decodeArrayLoop [] (tags ++ more) offset decoded
            = JSONDecode.decodeArrayLoop [] more
                (offset + 64 * len tags)
                (decoded ++ map blankValue tags)).
  { intros more. induction tags as [|t tags IH]; intros offset decoded Ho.
    - cbn [app map]. rewrite app_nil_r. f_equal. unfold len. simpl. lia.
    - cbn [forallb] in Hb. apply andb_true_iff in Hb.
      destruct Hb as [Ht Hb].
      cbn [app map JSONDecode.decodeArrayLoop].
      assert (Hs : JS.slice [] offset (offset + 64) = []).
      { unfold JS.slice. rewrite skipn_nil. apply firstn_nil. }
      assert (Hstep :
        (itemLength <- JSONDecode.getItemLength t ;;
         item <- ABIUtils.decodeParameter t
                   (JS.slice [] offset (offset + itemLength)) ;;
         JSONDecode.decodeArrayLoop [] (tags ++ more)
           (offset + itemLength) (decoded ++ [item]))
        = JSONDecode.decodeArrayLoop [] (tags ++ more) (offset + 64)
            (decoded ++ [blankValue t])).
      { unfold blankTag in Ht. unfold JSONDecode.getItemLength,
          ABIUtils.decodeParameter, blankValue.
        destruct (streq t (lit "bool")) eqn:T1.
        { apply streq_eq in T1. subst t. dispatch. cbn [orb bind].
          rewrite Hs. reflexivity. }
        destruct (streq t (lit "string")) eqn:T2.
        { apply streq_eq in T2. subst t. dispatch. cbn [orb bind].
          rewrite Hs. reflexivity. }
        destruct (streq t (lit "address")) eqn:T3.
        { apply streq_eq in T3. subst t. dispatch. cbn [orb bind].
          rewrite Hs. reflexivity. }
        destruct (streq t (lit "bytes32")) eqn:T4.
        { apply streq_eq in T4. subst t. dispatch. cbn [orb bind].
          rewrite Hs. reflexivity. }
        destruct (streq t (lit "bytes")) eqn:T5; [|discriminate Ht].
        apply streq_eq in T5. subst t. dispatch. cbn [orb bind].
        rewrite Hs. reflexivity. }
      rewrite Hstep, (IH Hb) by lia.
      rewrite <- app_assoc. cbn [app]. f_equal.
      unfold len. cbn [length]. lia. }
  split.
  - pose proof (Hloop [] 0 [] ltac:(lia)) as H.
    rewrite app_nil_r in H. rewrite H. reflexivity.
  - rewrite (Hloop [lit "uint256"] 0 [] ltac:(lia)).
    cbn [JSONDecode.decodeArrayLoop].
    change (JSONDecode.getItemLength (lit "uint256")) with (Ret 64).
    cbn [bind]. unfold JS.slice. rewrite skipn_nil, firstn_nil.
    reflexivity.
Qed.

Lemma json_decode_empty_text_witness :
  JSONDecode.decodeJSON [] (DArray [lit "bool"; lit "address"])
  = Ret (JSONDecode.asArray [PBool false; PString (lit "0x")])
  /\ JSONDecode.decodeJSON []
       (DArray ([lit "bool"; lit "address"] ++ [lit "uint256"]))
     = Throw SyntaxError.
Proof.
  apply (json_decode_empty_text [lit "bool"; lit "address"]). reflexivity.
Defined.

End JSONRoundTrip.

(** ** An address inside a JSON value *)
Section JSONAddress.

Lemma bufferFromUtf8_ascii (s : jsstring) :
  Forall (fun c => 0 <= c < 128) s -> JS.bufferFromUtf8 s = s.
Proof.
  induction 1 as [|c s Hc _ IH]; [reflexivity|].
  cbn [JS.bufferFromUtf8].
  unfold JS.isHighSurrogate, JS.isLowSurrogate, JS.utf8OfCodePoint.
  destruct (Z.leb_spec 55296 c); [lia|]. cbn [andb].
  destruct (Z.leb_spec 56320 c); [lia|]. cbn [andb].
  destruct (Z.ltb_spec c 128); [|lia].
  rewrite IH. reflexivity.
Qed.





End JSONAddress.

(** ** More of RLP encoding *)
Section RLPMore.



Lemma encodeItems_iff (items : list jsvalue) :
  Forall (fun v => (exists h, RLP.encode v = Ret h)
                   <-> encodable v = true) items ->
  (exists parts, RLP.encodeItems items = Ret parts)
  <-> forallb encodable items = true.
Proof.
  induction 1 as [|v items Hv _ IH]; cbn [RLP.encodeItems forallb].
  - split; [reflexivity|]. intros _. exists []. reflexivity.
  - rewrite andb_true_iff, <- Hv, <- IH. split.
    + intros [parts Hp].
      destruct (RLP.encode v) as [h|e]; [|discriminate].
      destruct (RLP.encodeItems items) as [hs|e]; [|discriminate].
      split; eexists; reflexivity.
    + intros [[h Hh] [hs Hhs]]. rewrite Hh, Hhs. eexists. reflexivity.
Qed.

Lemma encode_succeeds_iff :
  forall v, (exists h, RLP.encode v = Ret h) <-> encodable v = true.
Proof.
  fix IH 1. intros [p|items|fields].
  - destruct p as [| |b|x|z|s]; cbn [RLP.encode encodable];
      try (split; [intros [h H]; discriminate H|discriminate]).
    + unfold RLP.encodeNumber. destruct (JS.ltb x 0); cbn [negb].
      * split; [intros [h H]; discriminate H|discriminate].
      * split; [reflexivity|]. intros _.
        destruct (JS.leb x 127); eexists; reflexivity.
    + split; [reflexivity|]. intros _. unfold RLP.encodeString.
      destruct ((len (JS.bufferFromUtf8 s) =? 1)
                && (nth 0 (JS.bufferFromUtf8 s) 0 <=? 127));
        eexists; reflexivity.
  - rewrite encode_array. cbn [encodable]. unfold RLP.encodeList.
    rewrite <- encodeItems_iff.
    + split.
      * intros [h H].
        destruct (RLP.encodeItems items) as [parts|e]; [|discriminate].
        eexists. reflexivity.
      * intros [parts Hp]. rewrite Hp. eexists. reflexivity.
    + induction items as [|v items IHl]; constructor.
      * apply IH.
      * apply IHl.
  - cbn [RLP.encode encodable].
    split; [intros [h H]; discriminate H|discriminate].
Qed.

(** X25: [RLP.encode] gives a result exactly for the values built of
    numbers that are not negative, strings and arrays of such values, to
    any depth; a boolean, [null], [undefined], a big integer, an object
    or a negative number anywhere inside makes it throw. *)
Theorem rlp_encode_succeeds_iff (v : jsvalue) :
  ((exists h, RLP.encode v = Ret h) <-> encodable v = true)
  /\ (encodable v = false -> exists e, RLP.encode v = Throw e).
Proof.
  pose proof (encode_succeeds_iff v) as H. split; [exact H|].
  intros Hf. destruct (RLP.encode v) as [h|e] eqn:He.
  - assert (encodable v = true) by (apply H; eexists; reflexivity).
    congruence.
  - exists e. reflexivity.
Qed.

Lemma rlp_encode_succeeds_iff_witness :
  exists e,
    RLP.encode (VArray [VPrim (PNumber (NInt 1));
                        VArray [VPrim (PBool true)]]) = Throw e.
Proof.
  apply (proj2 (rlp_encode_succeeds_iff
                  (VArray [VPrim (PNumber (NInt 1));
                           VArray [VPrim (PBool true)]]))).
  reflexivity.
Defined.

(** X26: when the encodings of the items, joined, have an even number of
    characters, the list is [0x], the radix-16 digits of half that number
    and the encodings; if the encodings hold hex digits only, the result
    is valid hex text. *)
Theorem rlp_encode_even_list (items : list jsvalue)
                             (parts : list jsstring) :
  RLP.encodeItems items = Ret parts ->
  Z.even (len (concat parts)) = true ->
  RLP.encode (VArray items)
  = Ret (lit "0x" ++ JS.natToString16 (len (concat parts) / 2)
         ++ concat parts)
  /\ (forallb JS.isHexDigit (concat parts) = true ->
      HexUtils.test (lit "0x" ++ JS.natToString16 (len (concat parts) / 2)
                     ++ concat parts) = true).
Proof.
  intros Hp He.
  assert (Hk : 0 <= len (concat parts) / 2)
    by (apply Z.div_pos; unfold len; lia).
  split.
  - rewrite encode_array. unfold RLP.encodeList. rewrite Hp. cbn [bind].
    unfold RLP.joinList, RLP.intToHex, JS.half. rewrite He.
    unfold JS.toString16, JS.bigIntToString16.
    destruct (Z.ltb_spec (len (concat parts) / 2) 0); [lia|reflexivity].
  - intros Hall. apply test_intro.
    + pose proof (natToString16_nonempty (len (concat parts) / 2)).
      destruct (JS.natToString16 (len (concat parts) / 2));
        [contradiction|discriminate].
    + rewrite forallb_app, natToString16_digits, Hall by assumption.
      reflexivity.
Qed.

Lemma rlp_encode_even_list_witness :
  RLP.encode (VArray [VPrim (PNumber (NInt 123))])
  = Ret (lit "0x" ++ JS.natToString16 (len (concat [lit "7b"]) / 2)
         ++ concat [lit "7b"])
  /\ (forallb JS.isHexDigit (concat [lit "7b"]) = true ->
      HexUtils.test (lit "0x"
                     ++ JS.natToString16 (len (concat [lit "7b"]) / 2)
                     ++ concat [lit "7b"]) = true).
Proof.
  apply (rlp_encode_even_list [VPrim (PNumber (NInt 123))] [lit "7b"]);
    reflexivity.
Defined.

End RLPMore.

(** ** More of RLP decoding *)
Section RLPDecodeMore.

Lemma parseInt16_hexChar (d : Z) :
  0 <= d < 16 -> JS.parseInt16 [JS.hexChar d] = Some d.
Proof.
  revert d. apply digit_cases. cbn [seq map].
  repeat (constructor; [reflexivity|]). constructor.
Qed.

Lemma bufferFromHex_pair (d1 d2 : Z) :
  0 <= d1 < 16 -> 0 <= d2 < 16 ->
  JS.bufferFromHex [JS.hexChar d1; JS.hexChar d2] = [16 * d1 + d2].
Proof.
  intros H1 H2. cbn [JS.bufferFromHex].
  rewrite !digitIn_hexChar by assumption. reflexivity.
Qed.

(** What [decode] makes of [0x] and the two digits of a byte below 128:
    the string of the one character with that code. *)
Lemma decode_byte (fuel : nat) (b : Z) :
  0 <= b < 128 ->
  RLP.decode fuel (lit "0x" ++ JS.bufferToHex [b])
  = Some (Ret (VPrim (PString [b]))).
Proof.
  intros Hb. cbn [JS.bufferToHex].
  assert (H1 : 0 <= b / 16 < 16).
  { split; [apply Z.div_pos; lia|apply Z.div_lt_upper_bound; lia]. }
  pose proof (Z.mod_pos_bound b 16 ltac:(lia)) as H2.
  unfold RLP.decode.
  change (len (lit "0x" ++ [JS.hexChar (b / 16); JS.hexChar (b mod 16)])
          <? 2) with false. cbv iota.
  pose proof (sliceFrom_app (lit "0x")
                [JS.hexChar (b / 16); JS.hexChar (b mod 16)]) as Hs.
  change (len (lit "0x")) with 2 in Hs. rewrite Hs.
  cbn [JS.at0]. rewrite parseInt16_hexChar by assumption.
  cbn [JS.nanLe]. destruct (Z.leb_spec (b / 16) 127); [|lia].
  unfold RLP.decodeString. rewrite bufferFromHex_pair by assumption.
  replace (16 * (b / 16) + b mod 16) with b
    by (pose proof (Z.div_mod b 16); lia).
  rewrite bufferToUtf8_cons. unfold JS.utf8Step.
  destruct (Z.ltb_spec b 128); [reflexivity|lia].
Qed.

(** X27: [decode] does not give back a number [encode] wrote.  For a
    number from 16 to 127 it gives the string of the one character with
    that code; for a number below 16, written as one digit, it gives the
    empty string. *)
Theorem rlp_decode_encoded_number (fuel : nat) (n : Z) :
  (16 <= n <= 127 ->
   exists text,
     RLP.encode (VPrim (PNumber (NInt n))) = Ret text
     /\ RLP.decode fuel text = Some (Ret (VPrim (PString [n]))))
  /\ (0 <= n < 16 ->
      exists text,
        RLP.encode (VPrim (PNumber (NInt n))) = Ret text
        /\ RLP.decode fuel text = Some (Ret (VPrim (PString [])))).
Proof.
  assert (He : 0 <= n <= 127 ->
               RLP.encode (VPrim (PNumber (NInt n)))
               = Ret (lit "0x" ++ minimalHex n)).
  { intros Hn. cbn [RLP.encode]. unfold RLP.encodeNumber, JS.ltb, JS.leb.
    destruct (Z.ltb_spec n 0); [lia|].
    destruct (Z.leb_spec n 127); [|lia].
    unfold JS.toString16, JS.bigIntToString16.
    destruct (Z.ltb_spec n 0); [lia|].
    rewrite natToString16_small by lia. reflexivity. }
  split; intros Hn.
  - exists (lit "0x" ++ minimalHex n). split; [apply He; lia|].
    unfold minimalHex. destruct (Z.ltb_spec n 16); [lia|].
    apply (decode_byte fuel n). lia.
  - exists (lit "0x" ++ minimalHex n). split; [apply He; lia|].
    unfold minimalHex. destruct (Z.ltb_spec n 16); [|lia].
    unfold RLP.decode.
    change (len (lit "0x" ++ [JS.hexChar n]) <? 2) with false. cbv iota.
    pose proof (sliceFrom_app (lit "0x") [JS.hexChar n]) as Hs.
    change (len (lit "0x")) with 2 in Hs. rewrite Hs.
    cbn [JS.at0]. rewrite parseInt16_hexChar by assumption.
    cbn [JS.nanLe]. destruct (Z.leb_spec n 127); [reflexivity|lia].
Qed.

Lemma rlp_decode_encoded_number_witness :
  exists text,
    RLP.encode (VPrim (PNumber (NInt 123))) = Ret text
    /\ RLP.decode 0 text = Some (Ret (VPrim (PString [123]))).
Proof. apply (proj1 (rlp_decode_encoded_number 0 123)). lia. Defined.

(** X28: a string of one character up to U+007F is written as [0x] and
    the two digits of its code, and [decode] gives the string back. *)
Theorem rlp_char_round_trip (fuel : nat) (c : Z) :
  0 <= c < 128 ->
  RLP.encode (VPrim (PString [c])) = Ret (lit "0x" ++ JS.bufferToHex [c])
  /\ RLP.decode fuel (lit "0x" ++ JS.bufferToHex [c])
     = Some (Ret (VPrim (PString [c]))).
Proof.
  intros Hc. split; [|apply decode_byte, Hc].
  cbn [RLP.encode]. unfold RLP.encodeString.
  rewrite bufferFromUtf8_ascii by (repeat constructor; lia).
  change (len [c] =? 1) with true. cbn [nth andb].
  destruct (Z.leb_spec c 127); [reflexivity|lia].
Qed.

Lemma rlp_char_round_trip_witness :
  RLP.encode (VPrim (PString (lit "a")))
  = Ret (lit "0x" ++ JS.bufferToHex (lit "a"))
  /\ RLP.decode 0 (lit "0x" ++ JS.bufferToHex (lit "a"))
     = Some (Ret (VPrim (PString (lit "a")))).
Proof. apply (rlp_char_round_trip 0 97). lia. Defined.

Lemma In_trimStart (x : Z) (s : jsstring) :
  In x (JS.trimStart s) -> In x s.
Proof.
  induction s as [|c s IH]; [intros []|].
  cbn [JS.trimStart]. destruct (JS.isWhiteSpace c); [|exact (fun H => H)].
  intros H. right. apply IH, H.
Qed.

Lemma readDigits_nonneg (radix : Z) (s : jsstring) :
  forall acc seen v,
    0 <= radix -> 0 <= acc ->
    JS.readDigits radix s acc seen = Some v -> 0 <= v.
Proof.
  induction s as [|c s IH]; intros acc seen v Hr Ha; cbn [JS.readDigits].
  - destruct seen; [|discriminate]. intros H. inversion H. lia.
  - destruct (JS.digitIn radix c) as [d|] eqn:Hd.
    + apply IH; [assumption|]. apply digitIn_range in Hd. nia.
    + destruct seen; [|discriminate]. intros H. inversion H. lia.
Qed.

(** Without a minus sign [parseInt] gives no negative number. *)
Lemma parseInt16_nonneg (s : jsstring) (v : Z) :
  ~ In minus s -> JS.parseInt16 s = Some v -> 0 <= v.
Proof.
  intros Hm. unfold JS.parseInt16.
  assert (Hm' : ~ In minus (JS.trimStart s))
    by (intros H; apply Hm, In_trimStart, H).
  destruct (JS.trimStart s) as [|c r]; [discriminate|].
  destruct (Z.eqb_spec c 45) as [->|Hc].
  { exfalso. apply Hm'. left. reflexivity. }
  destruct (c =? 43); cbv beta iota zeta;
    match goal with
    | |- context [JS.readDigits 16 ?t 0 false] =>
        destruct (JS.readDigits 16 t 0 false) as [n|] eqn:Hn;
        [|discriminate]
    end;
    intros H; inversion H; subst n;
    apply (readDigits_nonneg 16 _ 0 false v ltac:(lia) ltac:(lia) Hn).
Qed.

Lemma In_slice (x : Z) (s : jsstring) (a b : Z) :
  In x (JS.slice s a b) -> In x s.
Proof.
  unfold JS.slice. intros H.
  rewrite <- (firstn_skipn (Z.to_nat (JS.clampIndex (len s) a)) s).
  apply in_or_app. right.
  rewrite <- (firstn_skipn
                (Z.to_nat (JS.clampIndex (len s) b
                           - JS.clampIndex (len s) a))
                (skipn (Z.to_nat (JS.clampIndex (len s) a)) s)).
  apply in_or_app. left. exact H.
Qed.

(** More fuel does not change what the loop has answered. *)
Lemma decodeLoop_more_fuel (h : jsstring) (fuel : nat) :
  forall index items out,
    RLP.decodeLoop fuel h index items = Some out ->
    RLP.decodeLoop (S fuel) h index items = Some out.
Proof.
  induction fuel as [|f IH]; intros index items out; [discriminate|].
  intros H. cbn [RLP.decodeLoop] in H. cbn [RLP.decodeLoop].
  destruct index as [i|]; [|exact H].
  destruct (i <? len h); [|exact H].
  destruct (JS.parseInt16 (JS.slice h i (i + 2))) as [n|].
  - apply IH in H. exact H.
  - apply IH in H. exact H.
Qed.

Lemma decodeLoop_fuel_le (h : jsstring) (f g : nat) :
  (f <= g)%nat ->
  forall index items out,
    RLP.decodeLoop f h index items = Some out ->
    RLP.decodeLoop g h index items = Some out.
Proof.
  induction 1 as [|g _ IH]; intros index items out H; [exact H|].
  apply decodeLoop_more_fuel, IH, H.
Qed.

Lemma decodeLoop_ends (h : jsstring) :
  ~ In minus h ->
  forall fuel i items,
    (Z.to_nat (len h - i) < fuel)%nat ->
    exists out, RLP.decodeLoop fuel h (Some i) items = Some out.
Proof.
  intros Hm. induction fuel as [|f IH]; intros i items Hf; [lia|].
  cbn [RLP.decodeLoop].
  destruct (Z.ltb_spec i (len h)) as [Hlt|Hge]; [|eexists; reflexivity].
  destruct (JS.parseInt16 (JS.slice h i (i + 2))) as [n|] eqn:Hp.
  - assert (0 <= n).
    { apply (parseInt16_nonneg (JS.slice h i (i + 2))); [|exact Hp].
      intros H. apply Hm, (In_slice _ _ _ _ H). }
    apply IH. lia.
  - destruct f as [|f]; [lia|]. eexists. reflexivity.
Qed.

Lemma loopingText_step (f : nat) (items : list jsstring) :
  RLP.decodeLoop (S (S f)) loopingText (Some 2) items
  = RLP.decodeLoop f loopingText (Some 2)
      ((items ++ [lit "00000000000"]) ++ [[]]).
Proof. reflexivity. Qed.

Lemma loopingText_loops (half : nat) :
  forall items,
    RLP.decodeLoop (2 * half) loopingText (Some 2) items = None
    /\ RLP.decodeLoop (S (2 * half)) loopingText (Some 2) items = None.
Proof.
  induction half as [|k IH]; intros items; [split; reflexivity|].
  replace (2 * S k)%nat with (S (S (2 * k))) by lia.
  split.
  - rewrite loopingText_step. apply IH.
  - rewrite loopingText_step. apply IH.
Qed.

(** X29: on a text without a minus sign the loop of [decodeList] ends
    within as many turns as the text has characters, and gives the same
    list with any fuel above that; on a text with one it can run for
    ever: on [c00b00000000000-f] no fuel is enough. *)
Theorem rlp_decodeList_termination :
  (forall h, ~ In minus h ->
     exists out, forall fuel,
       (length h < fuel)%nat -> RLP.decodeList fuel h = Some out)
  /\ (forall fuel, RLP.decodeList fuel loopingText = None).
Proof.
  split.
  - intros h Hm. unfold RLP.decodeList.
    destruct (decodeLoop_ends h Hm (S (length h)) (0 + 2) [])
      as [out Hout]; [unfold len; lia|].
    exists out. intros fuel Hf.
    apply (decodeLoop_fuel_le h (S (length h)) fuel); [lia|exact Hout].
  - intros fuel. unfold RLP.decodeList.
    destruct (Nat.Even_or_Odd fuel) as [[k ->]|[k ->]].
    + apply (loopingText_loops k []).
    + replace (2 * k + 1)%nat with (S (2 * k)) by lia.
      apply (loopingText_loops k []).
Qed.

Lemma rlp_decodeList_termination_witness :
  exists out, forall fuel,
    (length (lit "c50102030405") < fuel)%nat ->
    RLP.decodeList fuel (lit "c50102030405") = Some out.
Proof.
  apply (proj1 rlp_decodeList_termination (lit "c50102030405")).
  cbn. unfold minus. intros H.
  repeat (destruct H as [H|H]; [discriminate H|]). exact H.
Defined.

End RLPDecodeMore.
